(** * Undo/redo transaction log of loot-core (server/undo.ts)

    A shallow embedding of the undo log: the module-level array
    [MESSAGE_HISTORY] and its [CURSOR], the ambient mutator context, the
    inverse-derivation rules ([undoMessage], [redoResurrections]) and the
    controller ([undo], [redo]), followed by the properties of the log
    that the design document states about them. *)

From Stdlib Require Import Ascii.
From stdpp Require Import base numbers strings list gmap.

Local Open Scope string_scope.
Local Open Scope list_scope.
Local Open Scope Z_scope.

(** ** JavaScript values *)

(** The values a message column or an annotation can hold.  Numbers stored
    in the column store are integers (amounts are kept in cents). *)
Inductive jsval :=
| JUndefined
| JNull
| JBool (b : bool)
| JNum (n : Z)
| JStr (s : string).

(** ** Messages (the spec's Operations) *)

Record Message := mkMessage {
  dataset : string;
  row : string;
  column : string;
  value : jsval;
  timestamp : nat;
}.

(** The object spreads [{ ...message, value: v }] and friends. *)
Definition with_value (v : jsval) (m : Message) : Message :=
  mkMessage (dataset m) (row m) (column m) v (timestamp m).

Definition with_tombstone (v : jsval) (m : Message) : Message :=
  mkMessage (dataset m) (row m) "tombstone" v (timestamp m).

Definition with_timestamp (t : nat) (m : Message) : Message :=
  mkMessage (dataset m) (row m) (column m) (value m) t.

(** ** Prior-state snapshots *)

(** One row of the snapshot: a JS object from column names to values. *)
Abbreviation OldItem := (gmap string jsval).

(** [oldData]: a Map from dataset to a Map from row id to the row. *)
Abbreviation OldData := (gmap string (gmap string (gmap string jsval))).

(** Modelled from the spec: [getIn] of shared/util, which is imported by
    the log but defined elsewhere.  The snapshot maps [(dataset, row)] to
    the row's columns; the reader follows the two keys and yields
    nothing as soon as one of them is absent. *)
Definition getIn (oldData : OldData) (ds r : string) : option OldItem :=
  match oldData !! ds with
  | Some rows => rows !! r
  | None => None
  end.

(** Property read [oldItem[column]]: [undefined] when the key is absent. *)
Definition js_get (oldItem : OldItem) (col : string) : jsval :=
  default JUndefined (oldItem !! col).

(** ** Inverse derivation *)

(** [undoMessage(message, oldData)]; [None] is the source's [null]. *)
Definition undoMessage (message : Message) (oldData : OldData)
  : option Message :=
  match getIn oldData (dataset message) (row message) with
  | Some oldItem =>
      let column :=
        if String.eqb (dataset message) "spreadsheet_cells"
        then "cachedValue"
        else column message in
      Some (with_value (js_get oldItem column) message)
  | None =>
      if String.eqb (dataset message) "spreadsheet_cells" then
        if String.eqb (column message) "expr"
        then Some (with_value JNull message)
        else Some message
      else if negb (String.eqb (dataset message) "category_mapping")
              && negb (String.eqb (dataset message) "payee_mapping") then
        if String.eqb (dataset message) "zero_budget_months"
           || String.eqb (dataset message) "zero_budgets"
           || String.eqb (dataset message) "reflect_budgets" then
          if existsb (String.eqb (column message))
               ["buffered"; "amount"; "carryover"]
          then Some (with_value (JNum 0) message)
          else None
        else if String.eqb (dataset message) "notes" then
          Some (with_value JNull message)
        else Some (with_tombstone (JNum 1) message)
      else None
  end.

(** ** JavaScript arrays *)

Section js_array.
Context {A : Type}.

Definition js_len (l : list A) : Z := Z.of_nat (length l).

(** Index normalisation of [Array.prototype.slice]: a negative index
    counts from the end, and the result is clamped to [0 .. len]. *)
Definition rel_index (len i : Z) : Z :=
  if i <? 0 then Z.max (len + i) 0 else Z.min i len.

(** [l.slice(s, e)] *)
Definition js_slice (l : list A) (s e : Z) : list A :=
  let k := rel_index (js_len l) s in
  let f := rel_index (js_len l) e in
  take (Z.to_nat (f - k)) (drop (Z.to_nat k) l).

(** [l.slice(s)] *)
Definition js_slice_from (l : list A) (s : Z) : list A :=
  js_slice l s (js_len l).

(** [l[i]]: [None] stands for [undefined]. *)
Definition js_at (l : list A) (i : Z) : option A :=
  if i <? 0 then None else l !! Z.to_nat i.
End js_array.

(** A [Set<string>] iterates in insertion order and ignores a second
    insertion of the same string. *)
Definition set_add (x : string) (s : list string) : list string :=
  if bool_decide (x ∈ s) then s else s ++ [x].

(** [s.split(c)] for a one-character separator. *)
Fixpoint split_on (c : Ascii.ascii) (s : string) : list string :=
  match s with
  | EmptyString => [EmptyString]
  | String a s' =>
      if Ascii.eqb a c then EmptyString :: split_on c s'
      else match split_on c s' with
           | [] => [String a EmptyString]
           | w :: ws => String a w :: ws
           end
  end.

(** ** Log entries *)

(** An entry of [MESSAGE_HISTORY]: the union of [MarkerMessage] and
    [MessagesMessage], discriminated by its [type] field.  Entries are
    heap objects, and [Array.prototype.indexOf] finds them by reference:
    [oid] is the identity of the object, drawn from the allocation counter
    of the state.  The optional [meta] of a [MessagesMessage] is never
    written by this module. *)
Inductive Entry :=
| MarkerMessage (oid : nat) (meta : jsval)
| MessagesMessage (oid : nat) (messages : list Message)
    (oldData : OldData) (undoTag : jsval).

Definition entry_oid (e : Entry) : nat :=
  match e with
  | MarkerMessage o _ => o
  | MessagesMessage o _ _ _ => o
  end.

(** [item.type === 'marker'] *)
Definition is_marker (e : Entry) : bool :=
  match e with
  | MarkerMessage _ _ => true
  | MessagesMessage _ _ _ _ => false
  end.

(** [entry.type === 'messages'] *)
Definition is_messages (e : Entry) : bool := negb (is_marker e).

Definition entry_meta (e : Entry) : jsval :=
  match e with
  | MarkerMessage _ meta => meta
  | MessagesMessage _ _ _ _ => JUndefined
  end.

Definition entry_messages (e : Entry) : list Message :=
  match e with
  | MarkerMessage _ _ => []
  | MessagesMessage _ ms _ _ => ms
  end.

Definition entry_oldData (e : Entry) : OldData :=
  match e with
  | MarkerMessage _ _ => ∅
  | MessagesMessage _ _ od _ => od
  end.

Definition entry_undoTag (e : Entry) : jsval :=
  match e with
  | MarkerMessage _ _ => JUndefined
  | MessagesMessage _ _ _ tag => tag
  end.

(** [l.indexOf(x)] on entries compares references; [x] may be
    [undefined], which no entry equals. *)
Fixpoint indexOf_from (l : list Entry) (x : nat) (i : Z) : Z :=
  match l with
  | [] => -1
  | e :: l' => if Nat.eqb (entry_oid e) x then i else indexOf_from l' x (i + 1)
  end.

Definition indexOf (l : list Entry) (x : option Entry) : Z :=
  match x with
  | Some e => indexOf_from l (entry_oid e) 0
  | None => -1
  end.

(** ** The ambient mutator context *)

(** What [getMutatorContext()] yields; a field that is absent reads as
    falsy ([false], [JUndefined]). *)
Record Context := mkContext {
  undoListening : bool;
  undoDisabled : bool;
  undoTag : jsval;
}.

(** The object literal handed to [withMutatorContext]: the fields it
    names. *)
Record Overrides := mkOverrides {
  ov_undoListening : option bool;
  ov_undoDisabled : option bool;
  ov_undoTag : option jsval;
}.

Definition merge_context (ctx : Context) (ov : Overrides) : Context :=
  mkContext (default (undoListening ctx) (ov_undoListening ov))
            (default (undoDisabled ctx) (ov_undoDisabled ov))
            (default (undoTag ctx) (ov_undoTag ov)).

(** ** Program state *)

(** The payload of an ['undo-event'] announcement. *)
Record UndoState := mkUndoState {
  us_messages : list Message;
  us_tables : list string;
  us_meta : jsval;
  us_undoTag : jsval;
}.

(** The module's two variables, the allocation counter giving entries
    their identity, and the collaborators the module talks to: the logical
    clock behind [Timestamp.send()], the column store with the batches
    submitted to it, and the announcements made on the connection. *)
Record State := mkState {
  MESSAGE_HISTORY : list Entry;
  CURSOR : Z;
  next_oid : nat;
  clock : nat;
  store : OldData;
  sent : list (list Message);
  announced : list UndoState;
}.

Definition HISTORY_SIZE : Z := 20.

Definition initial_state : State :=
  mkState [MarkerMessage 0 JUndefined] 0 1 0 ∅ [] [].

Definition set_log (h : list Entry) (c : Z) (st : State) : State :=
  mkState h c (next_oid st) (clock st) (store st) (sent st) (announced st).

Definition set_cursor (c : Z) (st : State) : State :=
  set_log (MESSAGE_HISTORY st) c st.

(** Allocation of one entry object. *)
Definition bump_oid (st : State) : State :=
  mkState (MESSAGE_HISTORY st) (CURSOR st) (S (next_oid st)) (clock st)
          (store st) (sent st) (announced st).

(** ** Log operations *)

Definition trimHistory (st : State) : State :=
  let h := js_slice (MESSAGE_HISTORY st) 0 (CURSOR st + 1) in
  let markers := List.filter is_marker h in
  if js_len markers >? HISTORY_SIZE then
    let slice := js_slice_from markers (- HISTORY_SIZE) in
    let cutoff := indexOf h (head slice) in
    let h' := js_slice_from h cutoff in
    set_log h' (js_len h' - 1) st
  else set_log h (CURSOR st) st.

Definition appendMessages (ctx : Context) (messages : list Message)
    (oldData : OldData) (st : State) : State :=
  if undoListening ctx && (js_len messages >? 0) then
    let st1 := trimHistory st in
    let entry :=
      MessagesMessage (next_oid st1) messages oldData (undoTag ctx) in
    bump_oid (set_log (MESSAGE_HISTORY st1 ++ [entry]) (CURSOR st1 + 1) st1)
  else st.

Definition clearUndo (st : State) : State :=
  bump_oid (set_log [MarkerMessage (next_oid st) JUndefined] 0 st).

(** Modelled from the spec: [withMutatorContext] of ./mutators
    ([runWithContext] in the design), which runs [func] with the ambient
    context shallow-merged with the overrides and restores the caller's
    context afterwards. *)
Definition withMutatorContext {T} (ov : Overrides)
    (func : Context -> State -> T) (ctx : Context) (st : State) : T :=
  func (merge_context ctx ov) st.

(** The part of [withUndo] that opens the transaction: it cuts the redo
    future, then reuses the marker under the cursor or appends a fresh
    one.  [None] is the [TypeError] of reading [.type] of [undefined]. *)
Definition withUndo_marker (meta : jsval) (st : State) : option State :=
  let h := js_slice (MESSAGE_HISTORY st) 0 (CURSOR st + 1) in
  let marker := MarkerMessage (next_oid st) meta in
  match js_at h (js_len h - 1) with
  | None => None
  | Some last =>
      if is_marker last then
        Some (bump_oid
                (set_log (<[Z.to_nat (js_len h - 1) := marker]> h)
                         (CURSOR st) st))
      else
        Some (bump_oid (set_log (h ++ [marker]) (CURSOR st + 1) st))
  end.

(** [withUndo(func, meta)].  The ambient context is an explicit
    argument, and the callback receives the context it runs under.  The
    unit of work runs to completion before anything else touches the log
    (single-threaded cooperative execution). *)
Definition withUndo (func : Context -> State -> option State)
    (meta : jsval) (ctx : Context) (st : State) : option State :=
  if undoDisabled ctx || undoListening ctx then func ctx st
  else
    match withUndo_marker meta st with
    | None => None
    | Some st1 =>
        withMutatorContext
          (mkOverrides (Some true) None (Some (undoTag ctx))) func ctx st1
    end.

(** [undoable(func, metaFunc)]: the handler wrapped in a transaction whose
    annotation is computed from the arguments. *)
Definition undoable {Args : Type}
    (func : Args -> Context -> State -> option State)
    (metaFunc : option (Args -> jsval)) (args : Args)
    : Context -> State -> option State :=
  withUndo (func args)
    (match metaFunc with
     | Some f => f args
     | None => JUndefined
     end).

(** ** Collaborators *)

(** Modelled from the spec: the clock service behind [Timestamp.send()]
    (package crdt), monotonic per process.  [map_send f l clk] is
    [l.map(x => f(x, Timestamp.send()))]: one tick per element, in
    order. *)
Fixpoint map_send {A B} (f : A -> nat -> B) (l : list A) (clk : nat)
  : list B * nat :=
  match l with
  | [] => ([], clk)
  | x :: l' =>
      let r := map_send f l' (S clk) in
      (f x clk :: fst r, snd r)
  end.

(** Modelled from the spec: the column store behind the submission
    channel.  A write sets one column of one row, creating the row when it
    is absent. *)
Definition apply_message (s : OldData) (m : Message) : OldData :=
  let rows := default ∅ (s !! dataset m) in
  let item := default ∅ (rows !! row m) in
  <[dataset m := <[row m := <[column m := value m]> item]> rows]> s.

(** Modelled from the spec: the [priorState] the mutation layer captures
    for a batch, holding every touched row as it is before the batch. *)
Definition snapshot (s : OldData) (messages : list Message) : OldData :=
  foldl (fun acc m =>
           match getIn s (dataset m) (row m) with
           | Some item =>
               <[dataset m := <[row m := item]> (default ∅ (acc !! dataset m))]>
                 acc
           | None => acc
           end) ∅ messages.

(** Modelled from the spec: [sendMessages] of ./sync, the submission
    channel.  It applies the batch to the store, and the mutation layer
    then registers the batch with [appendMessages] ([recordIfListening])
    under the ambient context.  Only a successful submission is
    modelled. *)
Definition sendMessages (messages : list Message) (ctx : Context)
    (st : State) : State :=
  let prior := snapshot (store st) messages in
  let st1 :=
    mkState (MESSAGE_HISTORY st) (CURSOR st) (next_oid st) (clock st)
            (foldl apply_message (store st) messages)
            (sent st ++ [messages]) (announced st) in
  appendMessages ctx messages prior st1.

Definition set_clock (clk : nat) (st : State) : State :=
  mkState (MESSAGE_HISTORY st) (CURSOR st) (next_oid st) clk
          (store st) (sent st) (announced st).

(** Modelled from the spec: [connection.send('undo-event', payload)], the
    fire-and-forget notification channel. *)
Definition connection_send (payload : UndoState) (st : State) : State :=
  mkState (MESSAGE_HISTORY st) (CURSOR st) (next_oid st) (clock st)
          (store st) (sent st) (announced st ++ [payload]).

(** ** The controller *)

Definition applyUndoAction (messages : list Message) (meta undoTag : jsval)
    (ctx : Context) (st : State) : State :=
  let st1 :=
    withMutatorContext (mkOverrides (Some false) None None)
      (fun ctx' st0 =>
         let stamped :=
           map_send (fun msg t => with_timestamp t msg) messages (clock st0) in
         sendMessages (fst stamped) ctx' (set_clock (snd stamped) st0))
      ctx st in
  let tables :=
    foldl (fun acc message =>
             if bool_decide (dataset message ∈ acc) then acc
             else acc ++ [dataset message]) [] messages in
  connection_send (mkUndoState messages tables meta undoTag) st1.

(** The loop of [undo]: [while (CURSOR > 0 && MESSAGE_HISTORY[CURSOR].type
    !== 'marker') CURSOR--], by recursion on the cursor.  [None] is the
    [TypeError] of reading [.type] of [undefined]. *)
Fixpoint walk_back (h : list Entry) (c : nat) : option nat :=
  match c with
  | O => Some O
  | S c' =>
      match h !! c with
      | None => None
      | Some e => if is_marker e then Some c else walk_back h c'
      end
  end.

(** [undo()].  [None] is an uncaught [TypeError]; the state it leaves
    behind is not modelled. *)
Definition undo (ctx : Context) (st : State) : option State :=
  let h := MESSAGE_HISTORY st in
  let end_ := CURSOR st in
  match walk_back h (Z.to_nat (Z.max (CURSOR st - 1) 0)) with
  | None => None
  | Some c =>
      let cursor := Z.of_nat c in
      match js_at h cursor with
      | None => None
      | Some at_cursor =>
          let meta := entry_meta at_cursor in
          let start := Z.max cursor 0 in
          let entries :=
            List.filter is_messages (js_slice h start (end_ + 1)) in
          let st1 := set_cursor cursor st in
          if js_len entries >? 0 then
            let toApply :=
              rev (foldl (fun acc entry =>
                            acc ++ omap (fun message =>
                                           undoMessage message
                                             (entry_oldData entry))
                                        (entry_messages entry))
                         [] entries) in
            match head entries with
            | None => None
            | Some first =>
                Some (applyUndoAction toApply meta (entry_undoTag first)
                        ctx st1)
            end
          else Some st1
      end
  end.

(** The datasets whose rows [redo] never resurrects. *)
Definition not_resurrected : list string :=
  ["zero_budget_months"; "zero_budgets"; "reflect_budgets"; "notes";
   "category_mapping"; "payee_mapping"].

(** The [resurrect] set after the [forEach] of [redoResurrections]. *)
Definition resurrect_set (messages : list Message) (oldData : OldData)
  : list string :=
  foldl (fun resurrect message =>
           match getIn oldData (dataset message) (row message) with
           | Some _ => resurrect
           | None =>
               if negb (existsb (String.eqb (dataset message)) not_resurrected)
               then set_add (dataset message +:+ "." +:+ row message) resurrect
               else resurrect
           end) [] messages.

(** The arrow function mapped over the set: [desc.split('.')] is
    destructured into its first two parts.  Every [desc] holds a dot, so
    both parts exist. *)
Definition resurrection (desc : string) (t : nat) : Message :=
  let parts := split_on "."%char desc in
  mkMessage (default "" (parts !! 0%nat)) (default "" (parts !! 1%nat))
            "tombstone" (JNum 0) t.

Definition redoResurrections (messages : list Message) (oldData : OldData)
    (clk : nat) : list Message * nat :=
  map_send resurrection (resurrect_set messages oldData) clk.

(** The loop of [redo]: [while (CURSOR < MESSAGE_HISTORY.length - 1 &&
    MESSAGE_HISTORY[CURSOR].type !== 'marker') CURSOR++], by recursion on
    the distance [d] from the cursor to the last index. *)
Fixpoint walk_forward (h : list Entry) (c : Z) (d : nat) : option Z :=
  match d with
  | O => Some c
  | S d' =>
      match js_at h c with
      | None => None
      | Some e => if is_marker e then Some c else walk_forward h (c + 1) d'
      end
  end.

(** [redo()], with the same convention for [None]. *)
Definition redo (ctx : Context) (st : State) : option State :=
  let h := MESSAGE_HISTORY st in
  match js_at h (CURSOR st) with
  | None => None
  | Some at_cursor =>
      let meta := if is_marker at_cursor then entry_meta at_cursor else JNull in
      let start := CURSOR st in
      let c0 := Z.min (CURSOR st + 1) (js_len h - 1) in
      match walk_forward h c0 (Z.to_nat (js_len h - 1 - c0)) with
      | None => None
      | Some end_ =>
          let entries :=
            List.filter is_messages (js_slice h (start + 1) (end_ + 1)) in
          let st1 := set_cursor end_ st in
          if js_len entries >? 0 then
            let toApply :=
              foldl (fun acc entry =>
                       let res :=
                         redoResurrections (entry_messages entry)
                           (entry_oldData entry) (snd acc) in
                       ((fst acc ++ entry_messages entry) ++ fst res, snd res))
                    ([], clock st1) entries in
            match last entries with
            | None => None
            | Some final =>
                Some (applyUndoAction (fst toApply) meta (entry_undoTag final)
                        ctx (set_clock (snd toApply) st1))
            end
          else Some st1
      end
  end.

(** ** Units of work and runs *)

(** The callback of a transaction that reports a sequence of batches to
    the log, each with the snapshot taken for it. *)
Definition record_all (batches : list (list Message * OldData))
    (ctx : Context) (st : State) : option State :=
  Some (foldl (fun s b => appendMessages ctx (fst b) (snd b) s) st batches).

(** A recorded transaction: the annotation given to [withUndo] and the
    batches its unit of work reports. *)
Record Transaction := mkTransaction {
  tx_meta : jsval;
  tx_batches : list (list Message * OldData);
}.

Definition run_transaction (ctx : Context) (t : Transaction) (st : State)
  : option State :=
  withUndo (record_all (tx_batches t)) (tx_meta t) ctx st.

Fixpoint run_transactions (ctx : Context) (txs : list Transaction)
    (st : State) : option State :=
  match txs with
  | [] => Some st
  | t :: txs' =>
      match run_transaction ctx t st with
      | None => None
      | Some st' => run_transactions ctx txs' st'
      end
  end.

Fixpoint undo_times (ctx : Context) (n : nat) (st : State) : option State :=
  match n with
  | O => Some st
  | S n' =>
      match undo ctx st with
      | None => None
      | Some st' => undo_times ctx n' st'
      end
  end.

(** One call of an exported operation of the log.  The unit of work of
    [withUndo] is left empty here: what it does to the log, it does
    through further calls. *)
Inductive step : State -> State -> Prop :=
| step_withUndo ctx meta st st' :
    withUndo (fun _ s => Some s) meta ctx st = Some st' -> step st st'
| step_appendMessages ctx messages oldData st :
    step st (appendMessages ctx messages oldData st)
| step_undo ctx st st' : undo ctx st = Some st' -> step st st'
| step_redo ctx st st' : redo ctx st = Some st' -> step st st'
| step_clearUndo st : step st (clearUndo st).

Definition reachable (st : State) : Prop := rtc step initial_state st.

(** ** Vocabulary of the properties *)

(** [markers.length] of [trimHistory]. *)
Definition count_markers (h : list Entry) : nat :=
  length (List.filter is_marker h).

#[global] Arguments count_markers : simpl never.

(** The data-model constraint of a log: the cursor points into it. *)
Definition log_state (st : State) : Prop :=
  0 <= CURSOR st < js_len (MESSAGE_HISTORY st).

(** Well-formed states: the cursor points into the log, the log starts
    with a marker, and its entries are distinct objects allocated
    earlier. *)
Record wf (st : State) : Prop := mk_wf {
  wf_cursor : log_state st;
  wf_head : exists e, head (MESSAGE_HISTORY st) = Some e /\ is_marker e = true;
  wf_oids : NoDup (entry_oid <$> MESSAGE_HISTORY st);
  wf_fresh : Forall (fun e => (entry_oid e < next_oid st)%nat)
                    (MESSAGE_HISTORY st);
}.

(** The part of well-formedness that concerns the entries alone, for an
    allocation counter [n]. *)
Definition good_log (h : list Entry) (n : nat) : Prop :=
  (exists e, head h = Some e /\ is_marker e = true)
  /\ NoDup (entry_oid <$> h)
  /\ Forall (fun e => (entry_oid e < n)%nat) h.

(** All entries but the last hold at most [HISTORY_SIZE] markers. *)
Definition capped (st : State) : Prop :=
  (count_markers (take (length (MESSAGE_HISTORY st) - 1) (MESSAGE_HISTORY st))
   <= Z.to_nat HISTORY_SIZE)%nat.

(** The marker invariant in the design's words: every batch is preceded
    immediately by a marker. *)
Definition batches_follow_markers (h : list Entry) : Prop :=
  forall i b,
    h !! S i = Some b -> is_messages b = true ->
    exists m, h !! i = Some m /\ is_marker m = true.

(** Markers strictly before the cursor: the transactions left to undo. *)
Definition depth (st : State) : nat :=
  count_markers (take (Z.to_nat (CURSOR st)) (MESSAGE_HISTORY st)).

(** Markers up to and including the cursor. *)
Definition rank (st : State) : nat :=
  count_markers (take (S (Z.to_nat (CURSOR st))) (MESSAGE_HISTORY st)).

(** A string without the separator of [redoResurrections]. *)
Fixpoint dotless (s : string) : bool :=
  match s with
  | EmptyString => true
  | String a s' =>
      negb (Ascii.eqb a "."%char) && dotless s'
  end.

(** The batches [undo] collects when it moves the cursor from that of
    [st] to that of [st']. *)
Definition undo_collected (st st' : State) : list Entry :=
  List.filter is_messages
    (js_slice (MESSAGE_HISTORY st) (CURSOR st') (CURSOR st + 1)).

(** The batches [redo] collects when it moves the cursor from that of
    [st] to that of [st']. *)
Definition redo_collected (st st' : State) : list Entry :=
  List.filter is_messages
    (js_slice (MESSAGE_HISTORY st) (CURSOR st + 1) (CURSOR st' + 1)).

(** The inverses of one batch, in recorded order, nulls dropped. *)
Definition batch_inverses (e : Entry) : list Message :=
  omap (fun m => undoMessage m (entry_oldData e)) (entry_messages e).

(** Fresh stamps for a submitted list. *)
Definition stamp (messages : list Message) (clk : nat) : list Message :=
  fst (map_send (fun msg t => with_timestamp t msg) messages clk).

(** What [redo] replays: batch by batch, the recorded messages followed by
    the resurrections of that batch. *)
Fixpoint redo_ops (entries : list Entry) (clk : nat) : list Message :=
  match entries with
  | [] => []
  | e :: es =>
      let r := redoResurrections (entry_messages e) (entry_oldData e) clk in
      entry_messages e ++ fst r ++ redo_ops es (snd r)
  end.

(** The string under which [redoResurrections] remembers a row. *)
Definition resurrect_key (m : Message) : string :=
  dataset m +:+ "." +:+ row m.

(** An operation whose row needs reviving: the snapshot holds no row for
    it and its dataset is resurrectable. *)
Definition needs_resurrection (oldData : OldData) (m : Message) : bool :=
  match getIn oldData (dataset m) (row m) with
  | Some _ => false
  | None => negb (existsb (String.eqb (dataset m)) not_resurrected)
  end.

(** The redo list in the design's words: all replayed originals first,
    then one tombstone-clear per distinct (dataset, row) that needs
    reviving, deduplicated across the whole list. *)
Definition design_redo_ops (entries : list Entry) : list Message :=
  flat_map entry_messages entries
  ++ ((fun dr => mkMessage (fst dr) (snd dr) "tombstone" (JNum 0) 0)
        <$> remove_dups
              (flat_map
                 (fun e =>
                    (fun m => (dataset m, row m))
                      <$> List.filter (needs_resurrection (entry_oldData e))
                            (entry_messages e))
                 entries)).

(** The (dataset, row) an operation targets. *)
Definition target (m : Message) : string * string := (dataset m, row m).

Definition erase_timestamp (m : Message) : Message := with_timestamp 0 m.

(** What the design asks [undo] to submit: the inverses of the collected
    operations, the latest recorded operation first, each derived with
    the snapshot of its own batch, nulls dropped. *)
Definition inverses_latest_first (entries : list Entry) : list Message :=
  flat_map (fun e => rev (batch_inverses e)) (rev entries).

(** The cursor is on a marker or on the last entry. *)
Definition at_boundary (st : State) : Prop :=
  (exists e, MESSAGE_HISTORY st !! Z.to_nat (CURSOR st) = Some e
             /\ is_marker e = true)
  \/ CURSOR st = js_len (MESSAGE_HISTORY st) - 1.

(** The inverses of everything a transaction recorded: the latest
    operation first, each derived with the snapshot of its own batch. *)
Definition transaction_inverses (batches : list (list Message * OldData))
  : list Message :=
  rev (flat_map (fun b => omap (fun m => undoMessage m (snd b)) (fst b))
                batches).

(** ** Concrete inputs used by the examples below *)

Definition top_context : Context := mkContext false false JUndefined.

Definition amount_500 : Message :=
  mkMessage "transactions" "r1" "amount" (JNum 500) 0.

Definition amount_was_300 : OldData :=
  {[ "transactions" := {[ "r1" := {[ "amount" := JNum 300 ]} ]} ]}.

Definition cached_cell : Message :=
  mkMessage "spreadsheet_cells" "budget!c1" "cachedValue" (JNum 5) 0.

Definition listening_but_disabled : Context := mkContext true true JUndefined.

(** A transaction of two batches: the first creates a payee and writes a
    mapping for it, the second changes an amount that was 300 before. *)
Definition payee_created : Message :=
  mkMessage "payees" "r2" "name" (JStr "Grocer") 0.

Definition mapping_created : Message :=
  mkMessage "payee_mapping" "r2" "targetId" (JStr "r2") 0.

Definition two_batches : Transaction :=
  mkTransaction (JStr "import")
    [([payee_created; mapping_created], ∅); ([amount_500], amount_was_300)].

Definition two_batch_state : State :=
  default initial_state (run_transaction top_context two_batches initial_state).

(** The two-batch transaction undone: the cursor is back on the marker
    and the two batches are the redo future. *)
Definition undone_state : State :=
  default initial_state (undo top_context two_batch_state).

(** Twenty transactions of one batch each, then a transaction that
    records nothing. *)
Definition one_batch : Transaction :=
  mkTransaction (JStr "edit") [([amount_500], amount_was_300)].

Definition over_capacity_state : State :=
  default initial_state
    (run_transactions top_context
       (replicate 20 one_batch ++ [mkTransaction (JStr "noop") []])
       initial_state).

(** * Properties *)

(** ** Inverse derivation *)

Lemma getIn_empty ds r : getIn ∅ ds r = None.
Proof. unfold getIn. by rewrite lookup_empty. Qed.

(** C2. When the snapshot holds the row, and the row holds a value [v] in
    the column the inverse reads (the written column, or [cachedValue]
    for [spreadsheet_cells]), the inverse is the recorded operation with
    its value replaced by [v]: same dataset, row and column.  With
    [amount = 300] before and [500] recorded, [undo] submits
    [amount = 300]. *)
Theorem undoMessage_restores_prior
    (message : Message) (oldData : OldData) (oldItem : OldItem) (v : jsval) :
  getIn oldData (dataset message) (row message) = Some oldItem ->
  oldItem !! (if String.eqb (dataset message) "spreadsheet_cells"
              then "cachedValue" else column message) = Some v ->
  undoMessage message oldData
    = Some (mkMessage (dataset message) (row message) (column message) v
              (timestamp message))
  /\ exists st st',
      run_transaction top_context
        (mkTransaction JUndefined [([amount_500], amount_was_300)])
        initial_state = Some st
      /\ undo top_context st = Some st'
      /\ sent st' = [[mkMessage "transactions" "r1" "amount" (JNum 300) 0]].
Proof.
  intros Hrow Hcol. split.
  - unfold undoMessage. rewrite Hrow. cbn zeta.
    unfold js_get. rewrite Hcol. reflexivity.
  - eexists _, _. split; [vm_compute; reflexivity|].
    split; vm_compute; reflexivity.
Qed.

Lemma undoMessage_restores_prior_witness :
  undoMessage amount_500 amount_was_300
    = Some (mkMessage "transactions" "r1" "amount" (JNum 300) 0)
  /\ exists st st',
      run_transaction top_context
        (mkTransaction JUndefined [([amount_500], amount_was_300)])
        initial_state = Some st
      /\ undo top_context st = Some st'
      /\ sent st' = [[mkMessage "transactions" "r1" "amount" (JNum 300) 0]].
Proof.
  apply (undoMessage_restores_prior amount_500 amount_was_300
           {[ "amount" := JNum 300 ]} (JNum 300)); vm_compute; reflexivity.
Defined.

(** C9, as the code has it.  For a [spreadsheet_cells] operation whose row
    is absent from the snapshot, the inverse clears the field to [null]
    when the written column is the placeholder [expr]; for any other
    column the inverse is the recorded operation itself.  Neither case
    applies the tombstone rule: the inverse keeps the recorded column. *)
Theorem undoMessage_spreadsheet_created
    (message : Message) (oldData : OldData) :
  dataset message = "spreadsheet_cells" ->
  getIn oldData (dataset message) (row message) = None ->
  undoMessage message oldData
    = Some (if String.eqb (column message) "expr"
            then with_value JNull message else message)
  /\ forall inv, undoMessage message oldData = Some inv ->
       column inv = column message.
Proof.
  intros Hds Hrow. unfold undoMessage. rewrite Hrow, Hds. cbn.
  split; [by destruct (String.eqb _ _)|].
  intros inv. destruct (String.eqb _ _); intros [= <-]; reflexivity.
Qed.

Lemma undoMessage_spreadsheet_created_witness :
  undoMessage cached_cell ∅ = Some cached_cell
  /\ forall inv, undoMessage cached_cell ∅ = Some inv ->
       column inv = "cachedValue".
Proof.
  apply (undoMessage_spreadsheet_created cached_cell ∅);
    vm_compute; reflexivity.
Defined.

(** C9 as stated fails: a created [spreadsheet_cells] row written through
    a column other than [expr] has the recorded operation as its inverse,
    original value included, not a cleared field. *)
Lemma undoMessage_spreadsheet_replays :
  dataset cached_cell = "spreadsheet_cells"
  /\ getIn ∅ (dataset cached_cell) (row cached_cell) = None
  /\ undoMessage cached_cell ∅ = Some cached_cell
  /\ value cached_cell = JNum 5
  /\ undoMessage cached_cell ∅ <> Some (with_value JNull cached_cell).
Proof.
  split; [reflexivity|]. split; [apply getIn_empty|].
  split; [reflexivity|]. split; [reflexivity|]. vm_compute. discriminate.
Qed.

(** ** Recording *)

Lemma appendMessages_not_listening ctx messages oldData st :
  undoListening ctx = false -> appendMessages ctx messages oldData st = st.
Proof. intros H. unfold appendMessages. by rewrite H. Qed.

Lemma appendMessages_nil ctx oldData st :
  appendMessages ctx [] oldData st = st.
Proof. unfold appendMessages. by rewrite andb_false_r. Qed.

Lemma record_all_not_listening batches ctx st :
  undoListening ctx = false -> record_all batches ctx st = Some st.
Proof.
  intros H. unfold record_all. f_equal.
  induction batches as [|b bs IH]; [done|].
  cbn. by rewrite appendMessages_not_listening.
Qed.

(** C7, as the code has it.  Under a context that is not listening,
    [appendMessages] leaves the whole state, log and cursor included,
    unchanged, whatever its arguments.  [appendMessages] does not read the
    [disabled] flag: it is [withUndo] that honours it, by running the
    unit of work without starting to listen, so that a unit of work
    started from a disabled, non-listening context records nothing. *)
Theorem appendMessages_noop_unless_listening
    (ctx : Context) (messages : list Message) (oldData : OldData)
    (st : State) :
  undoListening ctx = false ->
  appendMessages ctx messages oldData st = st
  /\ (undoDisabled ctx = true ->
      forall func meta, withUndo func meta ctx st = func ctx st)
  /\ (undoDisabled ctx = true ->
      forall batches meta, withUndo (record_all batches) meta ctx st = Some st).
Proof.
  intros Hl. split; [by apply appendMessages_not_listening|].
  split; intros Hd; intros; unfold withUndo; rewrite Hd; cbn [orb];
    [done | by apply record_all_not_listening].
Qed.

Lemma appendMessages_noop_unless_listening_witness :
  appendMessages (mkContext false true JUndefined) [amount_500]
    amount_was_300 initial_state = initial_state
  /\ (true = true ->
      forall func meta,
        withUndo func meta (mkContext false true JUndefined) initial_state
        = func (mkContext false true JUndefined) initial_state)
  /\ (true = true ->
      forall batches meta,
        withUndo (record_all batches) meta (mkContext false true JUndefined)
          initial_state = Some initial_state).
Proof.
  apply (appendMessages_noop_unless_listening
           (mkContext false true JUndefined) [amount_500] amount_was_300
           initial_state).
  reflexivity.
Defined.

(** C7 as stated fails for a context that is disabled and listening at
    once: the batch is appended and the cursor advances. *)
Lemma appendMessages_ignores_disabled :
  undoDisabled listening_but_disabled = true
  /\ MESSAGE_HISTORY
       (appendMessages listening_but_disabled [amount_500] amount_was_300
          initial_state)
     = [MarkerMessage 0 JUndefined;
        MessagesMessage 1 [amount_500] amount_was_300 JUndefined]
  /\ CURSOR
       (appendMessages listening_but_disabled [amount_500] amount_was_300
          initial_state) = 1
  /\ appendMessages listening_but_disabled [amount_500] amount_was_300
       initial_state <> initial_state.
Proof.
  split; [reflexivity|]. split; [reflexivity|]. split; [reflexivity|].
  intros H. apply (f_equal CURSOR) in H. vm_compute in H. discriminate.
Qed.

(** ** Arrays *)

Section js_array_facts.
Context {A : Type}.
Implicit Types l : list A.

Lemma js_len_nonneg l : 0 <= js_len l.
Proof. unfold js_len. lia. Qed.

Lemma js_len_app l x : js_len (l ++ [x]) = js_len l + 1.
Proof. unfold js_len. rewrite length_app. cbn. lia. Qed.

Lemma take_clamp l n : take (n `min` length l) l = take n l.
Proof.
  destruct (decide (n <= length l)%nat) as [Hle|Hgt].
  - by rewrite Nat.min_l.
  - rewrite Nat.min_r by lia. rewrite !take_ge; [done|lia|lia].
Qed.

Lemma js_slice_range l s e :
  0 <= s -> 0 <= e ->
  js_slice l s e = take (Z.to_nat e - Z.to_nat s) (drop (Z.to_nat s) l).
Proof.
  intros Hs He. unfold js_slice, rel_index.
  destruct (Z.ltb_spec s 0); [lia|]. destruct (Z.ltb_spec e 0); [lia|].
  unfold js_len.
  destruct (decide (s <= Z.of_nat (length l))) as [Hin|Hout].
  - rewrite (Z.min_l s) by lia.
    rewrite <- (take_clamp (drop (Z.to_nat s) l) (Z.to_nat e - Z.to_nat s)).
    f_equal. rewrite length_drop. lia.
  - rewrite !(drop_ge l), !take_nil; [done|lia|lia].
Qed.

Lemma js_slice_prefix l e :
  0 <= e -> js_slice l 0 e = take (Z.to_nat e) l.
Proof.
  intros He. rewrite js_slice_range by lia. cbn. f_equal. lia.
Qed.

Lemma js_slice_suffix l s :
  0 <= s -> js_slice_from l s = drop (Z.to_nat s) l.
Proof.
  intros Hs. unfold js_slice_from.
  rewrite js_slice_range by (unfold js_len; lia).
  apply take_ge. unfold js_len. rewrite length_drop. lia.
Qed.

Lemma js_slice_last l k :
  0 < k <= js_len l ->
  js_slice_from l (- k) = drop (length l - Z.to_nat k) l.
Proof.
  unfold js_len. intros Hk. unfold js_slice_from, js_slice, rel_index, js_len.
  destruct (Z.ltb_spec (- k) 0); [|lia].
  destruct (Z.ltb_spec (Z.of_nat (length l)) 0); [lia|].
  rewrite Z.max_l, Z.min_l by lia.
  replace (Z.to_nat (Z.of_nat (length l) + - k))
    with (length l - Z.to_nat k)%nat by lia.
  apply take_ge. rewrite length_drop. lia.
Qed.

Lemma js_at_lookup l i : 0 <= i -> js_at l i = l !! Z.to_nat i.
Proof. intros Hi. unfold js_at. by destruct (Z.ltb_spec i 0); [lia|]. Qed.

End js_array_facts.

Lemma count_markers_app h1 h2 :
  count_markers (h1 ++ h2) = (count_markers h1 + count_markers h2)%nat.
Proof. unfold count_markers. by rewrite List.filter_app, length_app. Qed.

Lemma count_markers_singleton e :
  count_markers [e] = if is_marker e then 1%nat else 0%nat.
Proof. unfold count_markers. cbn. by destruct (is_marker e). Qed.

Lemma count_markers_take_le n h :
  (count_markers (take n h) <= count_markers h)%nat.
Proof.
  rewrite <- (take_drop n h) at 2. rewrite count_markers_app. lia.
Qed.

Lemma count_markers_drop_le n h :
  (count_markers (drop n h) <= count_markers h)%nat.
Proof.
  rewrite <- (take_drop n h) at 2. rewrite count_markers_app. lia.
Qed.

(** ** Capacity trimming *)

Lemma indexOf_from_lookup l i e z :
  NoDup (entry_oid <$> l) -> l !! i = Some e ->
  indexOf_from l (entry_oid e) z = z + Z.of_nat i.
Proof.
  revert i z. induction l as [|x l IH]; intros i z Hnd Hi; [done|].
  cbn in Hnd. apply NoDup_cons in Hnd as [Hx Hnd].
  destruct i as [|i]; cbn in *.
  - injection Hi as ->. rewrite Nat.eqb_refl. lia.
  - destruct (Nat.eqb_spec (entry_oid x) (entry_oid e)) as [Heq|Hne].
    + exfalso. apply Hx. rewrite Heq. apply list_elem_of_fmap.
      exists e. split; [done|]. by eapply list_elem_of_lookup_2.
    + rewrite (IH i (z + 1)); [lia|done|done].
Qed.

Lemma filter_lookup_drop {A} (P : A -> bool) (l : list A) k x :
  List.filter P l !! k = Some x ->
  exists i, l !! i = Some x /\ P x = true
            /\ List.filter P (drop i l) = drop k (List.filter P l).
Proof.
  revert k. induction l as [|y l IH]; intros k Hk; [done|].
  cbn in Hk. destruct (P y) eqn:Hy.
  - destruct k as [|k]; cbn in Hk.
    + injection Hk as ->. exists 0%nat. cbn. by rewrite Hy.
    + destruct (IH _ Hk) as (i & ? & ? & ?). exists (S i). cbn.
      by rewrite Hy.
  - destruct (IH _ Hk) as (i & ? & ? & ?). exists (S i). cbn. by rewrite Hy.
Qed.

Lemma trimHistory_wf st :
  wf st ->
  wf (trimHistory st)
  /\ CURSOR (trimHistory st) = js_len (MESSAGE_HISTORY (trimHistory st)) - 1
  /\ (exists k, MESSAGE_HISTORY (trimHistory st)
                = drop k (take (S (Z.to_nat (CURSOR st))) (MESSAGE_HISTORY st)))
  /\ (count_markers (MESSAGE_HISTORY (trimHistory st))
      <= Z.to_nat HISTORY_SIZE)%nat
  /\ next_oid (trimHistory st) = next_oid st.
Proof.
  destruct st as [h c n clk sto snt ann].
  intros [Hc (e & He & Hm) Hnd Hfr]. unfold log_state, js_len in Hc.
  cbn in *. unfold trimHistory. cbn.
  rewrite js_slice_prefix by lia.
  replace (Z.to_nat (c + 1)) with (S (Z.to_nat c)) by lia.
  set (h1 := take (S (Z.to_nat c)) h).
  assert (Hlen : length h1 = S (Z.to_nat c))
    by (unfold h1; rewrite length_take; lia).
  assert (Hhead : head h1 = Some e) by (destruct h; [done|by cbn in *]).
  assert (Hnd1 : NoDup (entry_oid <$> h1)).
  { unfold h1. rewrite fmap_take.
    eapply sublist_NoDup; [exact Hnd|apply sublist_take]. }
  assert (Hfr1 : Forall (fun e => (entry_oid e < n)%nat) h1)
    by (by apply Forall_take).
  destruct (Z.gtb_spec (js_len (List.filter is_marker h1)) HISTORY_SIZE)
    as [Hbig|Hsmall]; cbn.
  - unfold js_len, HISTORY_SIZE in Hbig.
    rewrite js_slice_last by (unfold js_len, HISTORY_SIZE; lia).
    set (markers := List.filter is_marker h1) in *.
    destruct (lookup_lt_is_Some_2 markers (length markers - 20)%nat)
      as [mk Hmk]; [lia|].
    assert (Hhd : head (drop (length markers - Z.to_nat HISTORY_SIZE) markers)
                  = Some mk).
    { rewrite head_lookup, lookup_drop, Nat.add_0_r.
      by replace (Z.to_nat HISTORY_SIZE) with 20%nat by done. }
    rewrite Hhd. cbn [indexOf].
    destruct (filter_lookup_drop _ _ _ _ Hmk) as (i & Hi & Hmki & Hdrop).
    rewrite (indexOf_from_lookup h1 i mk 0 Hnd1 Hi).
    rewrite js_slice_suffix by lia.
    replace (Z.to_nat (0 + Z.of_nat i)) with i by lia.
    pose proof (lookup_lt_Some _ _ _ Hi) as Hilt.
    assert (Hlen' : length (drop i h1) = (length h1 - i)%nat)
      by apply length_drop.
    split; [|split; [|split; [|split]]].
    + constructor; cbn.
      * unfold log_state, js_len. cbn. lia.
      * exists mk. split; [|done]. by rewrite head_lookup, lookup_drop, Nat.add_0_r.
      * rewrite fmap_drop. eapply sublist_NoDup; [exact Hnd1|apply sublist_drop].
      * by apply Forall_drop.
    + done.
    + by exists i.
    + unfold count_markers. rewrite Hdrop, length_drop.
      replace (Z.to_nat HISTORY_SIZE) with 20%nat by done.
      unfold markers in *. lia.
    + done.
  - unfold js_len in Hsmall.
    split; [|split; [|split; [|split]]].
    + constructor; cbn; [unfold log_state, js_len; cbn; lia| |done|done].
      by exists e.
    + unfold js_len. lia.
    + by exists 0%nat.
    + unfold count_markers. lia.
    + done.
Qed.

(** ** Submission and announcement *)

Lemma sendMessages_not_listening messages ctx st :
  undoListening ctx = false ->
  sendMessages messages ctx st
  = mkState (MESSAGE_HISTORY st) (CURSOR st) (next_oid st) (clock st)
      (foldl apply_message (store st) messages) (sent st ++ [messages])
      (announced st).
Proof. intros H. unfold sendMessages. by apply appendMessages_not_listening. Qed.

(** The submission of [undo] and [redo] runs with [undoListening]
    overridden to [false], so it is not recorded: the log, the cursor and
    the allocation counter stay as they are. *)
Lemma applyUndoAction_effect messages meta tag ctx st :
  let st' := applyUndoAction messages meta tag ctx st in
  MESSAGE_HISTORY st' = MESSAGE_HISTORY st
  /\ CURSOR st' = CURSOR st
  /\ next_oid st' = next_oid st
  /\ sent st' = sent st ++ [stamp messages (clock st)]
  /\ (exists tables,
        announced st'
        = announced st ++ [mkUndoState messages tables meta tag]).
Proof.
  unfold applyUndoAction, withMutatorContext.
  rewrite sendMessages_not_listening by done. cbn.
  repeat split; eauto.
Qed.

Lemma wf_same_log st st' :
  MESSAGE_HISTORY st' = MESSAGE_HISTORY st ->
  next_oid st' = next_oid st ->
  log_state st' -> wf st -> wf st'.
Proof.
  intros Hh Hn Hc [_ Hhd Hnd Hfr].
  constructor; [done|by rewrite Hh|by rewrite Hh|by rewrite Hh, Hn].
Qed.

(** ** The two walks *)

Lemma walk_back_spec h k :
  (k < length h)%nat ->
  exists j, walk_back h k = Some j /\ (j <= k)%nat
    /\ count_markers (take (S k) h) = count_markers (take (S j) h)
    /\ (j = 0%nat \/ exists e, h !! j = Some e /\ is_marker e = true).
Proof.
  induction k as [|k IH]; intros Hk.
  - exists 0%nat. cbn. eauto.
  - destruct (lookup_lt_is_Some_2 h (S k) Hk) as [e He].
    cbn [walk_back]. rewrite He. destruct (is_marker e) eqn:Hm.
    + exists (S k). eauto 10.
    + destruct IH as (j & Hj & Hle & Hcount & Hmark); [lia|].
      exists j. split; [done|]. split; [lia|]. split; [|done].
      rewrite (take_S_r h (S k) e He), count_markers_app, Hcount.
      unfold count_markers at 2. cbn. rewrite Hm. cbn. lia.
Qed.

Lemma walk_forward_spec h c d :
  0 <= c -> c + Z.of_nat d = js_len h - 1 ->
  exists j, walk_forward h c d = Some j /\ c <= j <= js_len h - 1.
Proof.
  revert c. induction d as [|d IH]; intros c Hc Hd.
  - exists c. cbn. split; [done|lia].
  - cbn [walk_forward]. rewrite js_at_lookup by done.
    destruct (lookup_lt_is_Some_2 h (Z.to_nat c)) as [e He];
      [unfold js_len in Hd; lia|].
    rewrite He. destruct (is_marker e).
    + exists c. split; [done|lia].
    + destruct (IH (c + 1)) as (j & Hj & Hle); [lia|lia|].
      exists j. split; [done|lia].
Qed.

Lemma walk_forward_end h c : walk_forward h c 0 = Some c.
Proof. done. Qed.

Lemma walk_back_between h k j :
  walk_back h k = Some j ->
  forall i, (j < i <= k)%nat ->
            exists e, h !! i = Some e /\ is_marker e = false.
Proof.
  induction k as [|k IH]; cbn [walk_back].
  - intros [= <-] i Hi. lia.
  - destruct (h !! S k) as [e|] eqn:He; [|done].
    destruct (is_marker e) eqn:Hm.
    + intros [= <-] i Hi. lia.
    + intros Hj i Hi. destruct (decide (i = S k)) as [-> |Hne]; [by eexists|].
      apply (IH Hj). lia.
Qed.

Lemma walk_forward_between h c d j :
  0 <= c -> walk_forward h c d = Some j ->
  c <= j <= c + Z.of_nat d
  /\ (forall i, (Z.to_nat c <= i < Z.to_nat j)%nat ->
                exists e, h !! i = Some e /\ is_marker e = false)
  /\ ((exists e, h !! Z.to_nat j = Some e /\ is_marker e = true)
      \/ j = c + Z.of_nat d).
Proof.
  revert c. induction d as [|d IH]; intros c Hc; cbn [walk_forward].
  - intros [= <-]. split; [lia|]. split; [intros i Hi; lia|right; lia].
  - rewrite js_at_lookup by done.
    destruct (h !! Z.to_nat c) as [e|] eqn:He; [|done].
    destruct (is_marker e) eqn:Hm.
    + intros [= <-]. split; [lia|]. split; [intros i Hi; lia|left; eauto].
    + intros Hj. destruct (IH (c + 1)) as (Hle & Hbetween & Hend);
        [lia|done|].
      split; [lia|]. split.
      * intros i Hi. destruct (decide (i = Z.to_nat c)) as [-> |Hne];
          [by eexists|]. apply Hbetween. lia.
      * destruct Hend as [?| ->]; [by left|right; lia].
Qed.

(** ** The undo controller *)

Lemma foldl_concat {A B} (f : A -> list B) (a : list B) (es : list A) :
  foldl (fun acc e => acc ++ f e) a es = a ++ flat_map f es.
Proof.
  revert a. induction es as [|e es IH]; intros a; cbn.
  - by rewrite app_nil_r.
  - by rewrite IH, app_assoc.
Qed.

Lemma rev_flat_map {A B} (f : A -> list B) (es : list A) :
  rev (flat_map f es) = flat_map (fun e => rev (f e)) (rev es).
Proof.
  induction es as [|e es IH]; cbn; [done|].
  rewrite rev_app_distr, IH, flat_map_app. cbn. by rewrite app_nil_r.
Qed.

Lemma js_len_pos_cons {A} (l : list A) :
  (js_len l >? 0) = true <-> l <> [].
Proof.
  unfold js_len. destruct l; cbn; [|done].
  split; [done|]. by intros [].
Qed.

Lemma undo_spec ctx st :
  log_state st ->
  exists st' j,
    undo ctx st = Some st'
    /\ walk_back (MESSAGE_HISTORY st) (Z.to_nat (Z.max (CURSOR st - 1) 0))
       = Some j
    /\ CURSOR st' = Z.of_nat j
    /\ MESSAGE_HISTORY st' = MESSAGE_HISTORY st
    /\ next_oid st' = next_oid st
    /\ (undo_collected st st' = [] ->
        sent st' = sent st /\ announced st' = announced st)
    /\ (undo_collected st st' <> [] ->
        sent st'
        = sent st
          ++ [stamp (inverses_latest_first (undo_collected st st')) (clock st)]
        /\ exists tables meta tag,
            announced st'
            = announced st
              ++ [mkUndoState (inverses_latest_first (undo_collected st st'))
                    tables meta tag]).
Proof.
  intros Hc. unfold log_state, js_len in Hc.
  destruct (walk_back_spec (MESSAGE_HISTORY st)
              (Z.to_nat (Z.max (CURSOR st - 1) 0)))
    as (j & Hj & Hle & _ & _); [lia|].
  destruct (lookup_lt_is_Some_2 (MESSAGE_HISTORY st) j) as [e He]; [lia|].
  unfold undo. rewrite Hj, js_at_lookup, Nat2Z.id, He by lia.
  rewrite (Z.max_l (Z.of_nat j)) by lia.
  remember (List.filter is_messages
              (js_slice (MESSAGE_HISTORY st) (Z.of_nat j) (CURSOR st + 1)))
    as entries eqn:Hent.
  destruct (js_len entries >? 0) eqn:Hpos.
  - apply js_len_pos_cons in Hpos.
    destruct entries as [|e0 es]; [done|]. cbn [head].
    eexists _, j. split; [reflexivity|].
    pose proof (applyUndoAction_effect
                  (rev (foldl (fun acc entry =>
                                 acc ++ omap (fun message =>
                                                undoMessage message
                                                  (entry_oldData entry))
                                             (entry_messages entry))
                              [] (e0 :: es)))
                  (entry_meta e) (entry_undoTag e0) ctx
                  (set_cursor (Z.of_nat j) st))
      as (Hh & Hcur & Hn & Hsent & tables & Hann).
    split; [done|]. split; [by rewrite Hcur|]. split; [by rewrite Hh|].
    split; [by rewrite Hn|].
    unfold undo_collected. rewrite Hcur, Hsent, Hann. cbn [set_cursor set_log CURSOR].
    rewrite <- Hent. split; [done|]. intros _.
    assert (Hops : rev (foldl (fun acc entry =>
                                 acc ++ omap (fun message =>
                                                undoMessage message
                                                  (entry_oldData entry))
                                             (entry_messages entry))
                              [] (e0 :: es))
                   = inverses_latest_first (e0 :: es)).
    { rewrite (foldl_concat batch_inverses). cbn [app].
      apply rev_flat_map. }
    rewrite <- Hops. split; [done|]. eauto.
  - eexists _, j. split; [reflexivity|]. cbn.
    split; [done|]. split; [done|]. split; [done|]. split; [done|].
    unfold undo_collected. cbn [set_cursor set_log CURSOR]. rewrite <- Hent.
    split; [done|]. intros Hne. apply js_len_pos_cons in Hne. congruence.
Qed.

Lemma stamp_erase messages clk :
  erase_timestamp <$> stamp messages clk = erase_timestamp <$> messages.
Proof.
  unfold stamp. revert clk.
  induction messages as [|m ms IH]; intros clk; cbn; [done|].
  by rewrite IH.
Qed.

(** C4. On every log state [undo] returns.  It moves the cursor to the
    nearest marker strictly before the old cursor, or to index 0, and
    collects the batches from there up to the old cursor.  When it
    collects at least one batch it submits exactly one list: the inverses
    of the collected operations, the latest recorded operation first
    across all collected batches, each derived with the snapshot of its
    own batch and nulls left out, under fresh timestamps.  The
    announcement carries the same list.  When nothing is collected,
    nothing is submitted or announced. *)
Theorem undo_submits_inverses_latest_first (ctx : Context) (st : State) :
  log_state st ->
  exists st' j,
    undo ctx st = Some st'
    /\ CURSOR st' = Z.of_nat j
    /\ (j <= Z.to_nat (Z.max (CURSOR st - 1) 0))%nat
    /\ (j = 0%nat
        \/ exists e, MESSAGE_HISTORY st !! j = Some e /\ is_marker e = true)
    /\ (forall i,
          (j < i <= Z.to_nat (Z.max (CURSOR st - 1) 0))%nat ->
          exists e, MESSAGE_HISTORY st !! i = Some e /\ is_marker e = false)
    /\ undo_collected st st'
       = List.filter is_messages
           (js_slice (MESSAGE_HISTORY st) (Z.of_nat j) (CURSOR st + 1))
    /\ (undo_collected st st' = [] ->
        sent st' = sent st /\ announced st' = announced st)
    /\ (undo_collected st st' <> [] ->
        exists submitted tables meta tag,
          sent st' = sent st ++ [submitted]
          /\ submitted
             = stamp (inverses_latest_first (undo_collected st st')) (clock st)
          /\ erase_timestamp <$> submitted
             = erase_timestamp <$> inverses_latest_first (undo_collected st st')
          /\ announced st'
             = announced st
               ++ [mkUndoState (inverses_latest_first (undo_collected st st'))
                     tables meta tag]).
Proof.
  intros Hst.
  destruct (undo_spec ctx st Hst)
    as (st' & j & Hundo & Hj & Hcur & _ & _ & Hnone & Hsome).
  unfold log_state, js_len in Hst.
  destruct (walk_back_spec (MESSAGE_HISTORY st)
              (Z.to_nat (Z.max (CURSOR st - 1) 0)))
    as (j' & Hj' & Hle & _ & Hmark); [lia|].
  assert (j' = j) as -> by congruence.
  exists st', j. split; [done|]. split; [done|]. split; [done|].
  split; [done|]. split; [by apply walk_back_between|].
  split; [unfold undo_collected; by rewrite Hcur|].
  split; [done|].
  intros Hne. destruct (Hsome Hne) as (Hsent & tables & meta & tag & Hann).
  eexists _, tables, meta, tag. split; [exact Hsent|].
  split; [done|]. split; [apply stamp_erase|done].
Qed.

Lemma undo_submits_inverses_latest_first_witness :
  exists st' j,
    undo top_context two_batch_state = Some st'
    /\ CURSOR st' = Z.of_nat j
    /\ (j <= Z.to_nat (Z.max (CURSOR two_batch_state - 1) 0))%nat
    /\ (j = 0%nat
        \/ exists e, MESSAGE_HISTORY two_batch_state !! j = Some e
                     /\ is_marker e = true)
    /\ (forall i,
          (j < i <= Z.to_nat (Z.max (CURSOR two_batch_state - 1) 0))%nat ->
          exists e, MESSAGE_HISTORY two_batch_state !! i = Some e
                    /\ is_marker e = false)
    /\ undo_collected two_batch_state st'
       = List.filter is_messages
           (js_slice (MESSAGE_HISTORY two_batch_state) (Z.of_nat j)
              (CURSOR two_batch_state + 1))
    /\ (undo_collected two_batch_state st' = [] ->
        sent st' = sent two_batch_state
        /\ announced st' = announced two_batch_state)
    /\ (undo_collected two_batch_state st' <> [] ->
        exists submitted tables meta tag,
          sent st' = sent two_batch_state ++ [submitted]
          /\ submitted
             = stamp (inverses_latest_first (undo_collected two_batch_state st'))
                 (clock two_batch_state)
          /\ erase_timestamp <$> submitted
             = erase_timestamp
                 <$> inverses_latest_first (undo_collected two_batch_state st')
          /\ announced st'
             = announced two_batch_state
               ++ [mkUndoState
                     (inverses_latest_first
                        (undo_collected two_batch_state st'))
                     tables meta tag]).
Proof.
  apply (undo_submits_inverses_latest_first top_context two_batch_state).
  vm_compute. split; [discriminate|reflexivity].
Defined.

(** On the two-batch transaction: the amount goes back to 300 first, the
    mapping has no inverse, and the created payee is tombstoned last. *)
Example undo_two_batches :
  sent <$> undo top_context two_batch_state
  = Some [[mkMessage "transactions" "r1" "amount" (JNum 300) 0;
           mkMessage "payees" "r2" "tombstone" (JNum 1) 1]].
Proof. vm_compute. reflexivity. Qed.

(** ** The redo controller *)

Lemma redo_fold es a clk :
  exists clk',
    foldl (fun acc entry =>
             ((fst acc ++ entry_messages entry)
              ++ fst (redoResurrections (entry_messages entry)
                        (entry_oldData entry) (snd acc)),
              snd (redoResurrections (entry_messages entry)
                     (entry_oldData entry) (snd acc))))
          (a, clk) es
    = (a ++ redo_ops es clk, clk').
Proof.
  revert a clk. induction es as [|e es IH]; intros a clk;
    cbn [foldl redo_ops fst snd].
  - exists clk. by rewrite app_nil_r.
  - destruct (IH ((a ++ entry_messages e)
                  ++ fst (redoResurrections (entry_messages e)
                            (entry_oldData e) clk))
                 (snd (redoResurrections (entry_messages e)
                         (entry_oldData e) clk))) as [clk' Hclk'].
    exists clk'. rewrite Hclk'. f_equal. by rewrite <- !app_assoc.
Qed.

Lemma redo_spec ctx st :
  log_state st ->
  exists st',
    redo ctx st = Some st'
    /\ CURSOR st <= CURSOR st' <= js_len (MESSAGE_HISTORY st) - 1
    /\ MESSAGE_HISTORY st' = MESSAGE_HISTORY st
    /\ next_oid st' = next_oid st
    /\ (redo_collected st st' = [] ->
        sent st' = sent st /\ announced st' = announced st)
    /\ (redo_collected st st' <> [] ->
        exists clk',
          sent st'
          = sent st ++ [stamp (redo_ops (redo_collected st st') (clock st)) clk']
          /\ exists tables meta tag,
              announced st'
              = announced st
                ++ [mkUndoState (redo_ops (redo_collected st st') (clock st))
                      tables meta tag]).
Proof.
  intros Hc. unfold log_state in Hc. pose proof Hc as Hc'.
  unfold js_len in Hc'.
  destruct (lookup_lt_is_Some_2 (MESSAGE_HISTORY st) (Z.to_nat (CURSOR st)))
    as [e He]; [lia|].
  unfold redo. rewrite js_at_lookup, He by lia.
  destruct (walk_forward_spec (MESSAGE_HISTORY st)
              (Z.min (CURSOR st + 1) (js_len (MESSAGE_HISTORY st) - 1))
              (Z.to_nat (js_len (MESSAGE_HISTORY st) - 1
                         - Z.min (CURSOR st + 1)
                             (js_len (MESSAGE_HISTORY st) - 1))))
    as (j & Hj & Hle); [lia|lia|].
  rewrite Hj. cbn zeta.
  remember (List.filter is_messages
              (js_slice (MESSAGE_HISTORY st) (CURSOR st + 1) (j + 1)))
    as entries eqn:Hent.
  destruct (js_len entries >? 0) eqn:Hpos.
  - apply js_len_pos_cons in Hpos.
    destruct (last entries) as [final|] eqn:Hlast;
      [|by apply last_None in Hlast].
    destruct (redo_fold entries [] (clock (set_cursor j st)))
      as [clk' Hfold].
    rewrite Hfold. cbn [fst snd app].
    eexists. split; [reflexivity|].
    pose proof (applyUndoAction_effect
                  (redo_ops entries (clock (set_cursor j st)))
                  (if is_marker e then entry_meta e else JNull)
                  (entry_undoTag final) ctx
                  (set_clock clk' (set_cursor j st)))
      as (Hh & Hcur & Hn & Hsent & tables & Hann).
    split; [rewrite Hcur; cbn; lia|]. split; [by rewrite Hh|].
    split; [by rewrite Hn|].
    unfold redo_collected. rewrite Hcur, Hsent, Hann.
    cbn [set_clock set_cursor set_log CURSOR clock sent announced].
    rewrite <- Hent. split; [done|]. intros _.
    exists clk'. split; [done|]. eauto.
  - eexists. split; [reflexivity|]. cbn [set_cursor set_log CURSOR].
    split; [lia|]. split; [done|]. split; [done|].
    unfold redo_collected. cbn [set_cursor set_log CURSOR]. rewrite <- Hent.
    split; [done|]. intros Hne. apply js_len_pos_cons in Hne. congruence.
Qed.

Lemma applyUndoAction_cursor messages meta tag ctx st :
  CURSOR (applyUndoAction messages meta tag ctx st) = CURSOR st.
Proof.
  by destruct (applyUndoAction_effect messages meta tag ctx st)
    as (_ & ? & _).
Qed.

Lemma redo_walk ctx st :
  log_state st ->
  exists st' j,
    redo ctx st = Some st'
    /\ walk_forward (MESSAGE_HISTORY st)
         (Z.min (CURSOR st + 1) (js_len (MESSAGE_HISTORY st) - 1))
         (Z.to_nat (js_len (MESSAGE_HISTORY st) - 1
                    - Z.min (CURSOR st + 1)
                        (js_len (MESSAGE_HISTORY st) - 1)))
       = Some j
    /\ CURSOR st' = j
    /\ MESSAGE_HISTORY st' = MESSAGE_HISTORY st
    /\ next_oid st' = next_oid st.
Proof.
  intros Hst.
  destruct (redo_spec ctx st Hst) as (st' & Hredo & _ & Hh & Hn & _).
  pose proof Hredo as Hcopy. unfold redo in Hcopy.
  destruct (js_at (MESSAGE_HISTORY st) (CURSOR st)) as [e|]; [|done].
  destruct (walk_forward _ _ _) as [j|] eqn:Hj; [|done].
  exists st', j. split; [done|]. split; [done|]. split; [|done].
  cbn zeta in Hcopy.
  destruct (js_len _ >? 0).
  - destruct (last _) as [final|]; [|done]. injection Hcopy as <-.
    by rewrite applyUndoAction_cursor.
  - by injection Hcopy as <-.
Qed.

(** C10. On every log state both [undo] and [redo] return, and the entry
    sequence afterwards is the one before: markers, batches, their
    messages, snapshots, annotations and tags.  No entry is allocated and
    nothing is trimmed; the cursor stays inside the log. *)
Theorem undo_redo_keep_entries (ctx : Context) (st : State) :
  log_state st ->
  (exists st',
     undo ctx st = Some st'
     /\ MESSAGE_HISTORY st' = MESSAGE_HISTORY st
     /\ next_oid st' = next_oid st
     /\ log_state st')
  /\ (exists st',
        redo ctx st = Some st'
        /\ MESSAGE_HISTORY st' = MESSAGE_HISTORY st
        /\ next_oid st' = next_oid st
        /\ log_state st').
Proof.
  intros Hst. split.
  - destruct (undo_spec ctx st Hst)
      as (st' & j & Hundo & Hj & Hcur & Hh & Hn & _).
    exists st'. repeat (split; [done|]).
    destruct (walk_back_spec (MESSAGE_HISTORY st)
                (Z.to_nat (Z.max (CURSOR st - 1) 0)))
      as (j' & Hj' & Hle & _); [unfold log_state, js_len in Hst; lia|].
    assert (j' = j) as -> by congruence.
    unfold log_state, js_len in *. rewrite Hh, Hcur. lia.
  - destruct (redo_spec ctx st Hst) as (st' & Hredo & Hcur & Hh & Hn & _).
    exists st'. repeat (split; [done|]).
    unfold log_state in *. rewrite Hh. lia.
Qed.

Lemma undo_redo_keep_entries_witness :
  (exists st',
     undo listening_but_disabled two_batch_state = Some st'
     /\ MESSAGE_HISTORY st' = MESSAGE_HISTORY two_batch_state
     /\ next_oid st' = next_oid two_batch_state
     /\ log_state st')
  /\ (exists st',
        redo listening_but_disabled two_batch_state = Some st'
        /\ MESSAGE_HISTORY st' = MESSAGE_HISTORY two_batch_state
        /\ next_oid st' = next_oid two_batch_state
        /\ log_state st').
Proof.
  apply (undo_redo_keep_entries listening_but_disabled two_batch_state).
  vm_compute. split; [discriminate|reflexivity].
Defined.

(** ** Opening a transaction *)

Lemma withUndo_marker_spec meta st :
  log_state st ->
  exists last,
    MESSAGE_HISTORY st !! Z.to_nat (CURSOR st) = Some last
    /\ withUndo_marker meta st
       = Some (bump_oid
                 (set_log
                    (take (if is_marker last then Z.to_nat (CURSOR st)
                           else S (Z.to_nat (CURSOR st)))
                          (MESSAGE_HISTORY st)
                     ++ [MarkerMessage (next_oid st) meta])
                    (if is_marker last then CURSOR st else CURSOR st + 1)
                    st)).
Proof.
  intros Hc. unfold log_state, js_len in Hc.
  destruct (lookup_lt_is_Some_2 (MESSAGE_HISTORY st) (Z.to_nat (CURSOR st)))
    as [last Hlast]; [lia|].
  exists last. split; [done|]. unfold withUndo_marker.
  rewrite js_slice_prefix by lia.
  replace (Z.to_nat (CURSOR st + 1)) with (S (Z.to_nat (CURSOR st))) by lia.
  rewrite (take_S_r _ _ _ Hlast).
  assert (Hlen : length (take (Z.to_nat (CURSOR st)) (MESSAGE_HISTORY st))
                 = Z.to_nat (CURSOR st)) by (rewrite length_take; lia).
  rewrite js_len_app. unfold js_len. rewrite Hlen.
  replace (Z.of_nat (Z.to_nat (CURSOR st)) + 1 - 1)
    with (Z.of_nat (Z.to_nat (CURSOR st))) by lia.
  rewrite js_at_lookup, Nat2Z.id by lia.
  rewrite lookup_app_r by lia. rewrite Hlen, Nat.sub_diag. cbn [lookup list_lookup].
  destruct (is_marker last); [|by rewrite (take_S_r _ _ _ Hlast)].
  rewrite insert_app_r_alt by lia. rewrite Hlen, Nat.sub_diag. done.
Qed.

Lemma indexOf_from_range l x z :
  indexOf_from l x z = -1
  \/ z <= indexOf_from l x z < z + Z.of_nat (length l).
Proof.
  revert z. induction l as [|e l IH]; intros z; cbn [indexOf_from length].
  - by left.
  - destruct (Nat.eqb _ _); [right; lia|].
    destruct (IH (z + 1)) as [->|?]; [by left|right; lia].
Qed.

Lemma trimHistory_log_state st :
  log_state st ->
  log_state (trimHistory st)
  /\ CURSOR (trimHistory st) = js_len (MESSAGE_HISTORY (trimHistory st)) - 1.
Proof.
  intros Hc. unfold log_state, js_len in Hc. unfold trimHistory.
  rewrite js_slice_prefix by lia.
  set (h1 := take (Z.to_nat (CURSOR st + 1)) (MESSAGE_HISTORY st)).
  assert (Hlen : length h1 = Z.to_nat (CURSOR st + 1))
    by (unfold h1; rewrite length_take; lia).
  destruct (js_len (List.filter is_marker h1) >? HISTORY_SIZE).
  - set (cutoff := indexOf h1 _).
    assert (Hcut : cutoff = -1 \/ 0 <= cutoff < Z.of_nat (length h1)).
    { unfold cutoff, indexOf. destruct (head _); [|by left].
      apply indexOf_from_range. }
    assert (Hne : 0 < js_len (js_slice_from h1 cutoff)).
    { destruct Hcut as [->|Hin].
      - change (-1) with (- (1)).
        rewrite (js_slice_last h1 1) by (unfold js_len; lia).
        unfold js_len. rewrite length_drop. lia.
      - rewrite js_slice_suffix by lia.
        unfold js_len. rewrite length_drop. lia. }
    unfold log_state. cbn. lia.
  - unfold log_state, js_len. cbn. fold h1. lia.
Qed.

Lemma appendMessages_log_state ctx messages oldData st :
  log_state st ->
  log_state (appendMessages ctx messages oldData st)
  /\ (appendMessages ctx messages oldData st = st
      \/ CURSOR (appendMessages ctx messages oldData st)
         = js_len (MESSAGE_HISTORY (appendMessages ctx messages oldData st)) - 1).
Proof.
  intros Hc. unfold appendMessages.
  destruct (undoListening ctx && (js_len messages >? 0)); [|by auto].
  destruct (trimHistory_log_state st Hc) as [Hc1 Hend].
  unfold log_state in *. cbn. rewrite js_len_app. split; [lia|right; lia].
Qed.

Lemma record_all_at_end batches ctx st :
  log_state st -> CURSOR st = js_len (MESSAGE_HISTORY st) - 1 ->
  exists st',
    record_all batches ctx st = Some st'
    /\ log_state st' /\ CURSOR st' = js_len (MESSAGE_HISTORY st') - 1.
Proof.
  unfold record_all. revert st.
  induction batches as [|b bs IH]; intros st Hc Hend; cbn [foldl].
  - by exists st.
  - destruct (appendMessages_log_state ctx (fst b) (snd b) st Hc)
      as [Hc' [Heq|Hend']].
    + rewrite Heq. by apply IH.
    + by apply IH.
Qed.

Lemma redo_at_end ctx st :
  log_state st -> CURSOR st = js_len (MESSAGE_HISTORY st) - 1 ->
  redo ctx st = Some st.
Proof.
  intros Hc Hend. unfold log_state in Hc. pose proof Hc as Hc'.
  unfold js_len in Hc'.
  destruct (lookup_lt_is_Some_2 (MESSAGE_HISTORY st) (Z.to_nat (CURSOR st)))
    as [e He]; [lia|].
  unfold redo. rewrite js_at_lookup, He by lia.
  rewrite Z.min_r by lia. rewrite Z.sub_diag.
  change (Z.to_nat 0) with 0%nat. rewrite walk_forward_end.
  rewrite js_slice_range by lia.
  rewrite <- Hend, Nat.sub_diag, take_0.
  change (js_len (List.filter is_messages []) >? 0) with false. cbn match.
  unfold set_cursor, set_log. by destruct st.
Qed.

(** C8. On a log state whose cursor is strictly before the last entry,
    opening a transaction from a context that is neither listening nor
    disabled leaves a log made of old entries at or before the cursor,
    followed by the one fresh marker; the cursor is on that marker, the
    last entry.  A [redo] right after the opening, or right after a
    transaction that records any batches, returns the state unchanged:
    it collects nothing and submits nothing. *)
Theorem new_transaction_discards_future
    (ctx : Context) (meta : jsval) (st : State) :
  0 <= CURSOR st < js_len (MESSAGE_HISTORY st) - 1 ->
  undoListening ctx = false ->
  undoDisabled ctx = false ->
  exists st1 kept,
    withUndo (fun _ s => Some s) meta ctx st = Some st1
    /\ (kept <= S (Z.to_nat (CURSOR st)))%nat
    /\ MESSAGE_HISTORY st1
       = take kept (MESSAGE_HISTORY st) ++ [MarkerMessage (next_oid st) meta]
    /\ CURSOR st1 = js_len (MESSAGE_HISTORY st1) - 1
    /\ (forall ctx', redo ctx' st1 = Some st1)
    /\ (forall batches ctx',
          exists st2,
            withUndo (record_all batches) meta ctx st = Some st2
            /\ redo ctx' st2 = Some st2).
Proof.
  intros Hc Hl Hd.
  assert (Hst : log_state st) by (unfold log_state; lia).
  destruct (withUndo_marker_spec meta st Hst) as (last & Hlast & Hopen).
  unfold withUndo. rewrite Hl, Hd, Hopen. cbn [orb].
  unfold withMutatorContext.
  set (kept := if is_marker last then Z.to_nat (CURSOR st)
               else S (Z.to_nat (CURSOR st))).
  set (cur := if is_marker last then CURSOR st else CURSOR st + 1).
  set (st1 := bump_oid (set_log _ cur st)).
  assert (Hkept : (kept <= S (Z.to_nat (CURSOR st)))%nat)
    by (unfold kept; destruct (is_marker last); lia).
  assert (Hend : CURSOR st1 = js_len (MESSAGE_HISTORY st1) - 1).
  { cbn. rewrite js_len_app. unfold js_len in *. rewrite length_take.
    unfold kept, cur. destruct (is_marker last); lia. }
  assert (Hst1 : log_state st1).
  { unfold log_state. rewrite Hend.
    pose proof (js_len_nonneg (MESSAGE_HISTORY st1)).
    assert (0 < js_len (MESSAGE_HISTORY st1))
      by (cbn; rewrite js_len_app;
          pose proof (js_len_nonneg (take kept (MESSAGE_HISTORY st))); lia).
    lia. }
  exists st1, kept. split; [done|]. split; [done|]. split; [done|].
  split; [done|]. split; [by intros; apply redo_at_end|].
  intros batches ctx'.
  destruct (record_all_at_end batches
              (merge_context ctx
                 (mkOverrides (Some true) None (Some (undoTag ctx))))
              st1 Hst1 Hend) as (st2 & Hrec & Hst2 & Hend2).
  exists st2. split; [done|]. by apply redo_at_end.
Qed.

Lemma new_transaction_discards_future_witness :
  exists st1 kept,
    withUndo (fun _ s => Some s) (JStr "edit") top_context undone_state
    = Some st1
    /\ (kept <= S (Z.to_nat (CURSOR undone_state)))%nat
    /\ MESSAGE_HISTORY st1
       = take kept (MESSAGE_HISTORY undone_state)
         ++ [MarkerMessage (next_oid undone_state) (JStr "edit")]
    /\ CURSOR st1 = js_len (MESSAGE_HISTORY st1) - 1
    /\ (forall ctx', redo ctx' st1 = Some st1)
    /\ (forall batches ctx',
          exists st2,
            withUndo (record_all batches) (JStr "edit") top_context
              undone_state = Some st2
            /\ redo ctx' st2 = Some st2).
Proof.
  apply (new_transaction_discards_future top_context (JStr "edit")
           undone_state).
  - vm_compute. split; [discriminate|reflexivity].
  - reflexivity.
  - reflexivity.
Defined.

(** After the undo of the two-batch transaction, a new transaction leaves
    the fresh marker alone in the log. *)
Example new_transaction_after_undo :
  MESSAGE_HISTORY
    <$> withUndo (fun _ s => Some s) (JStr "edit") top_context undone_state
  = Some [MarkerMessage 4 (JStr "edit")].
Proof. vm_compute. reflexivity. Qed.

(** ** Well-formedness is preserved *)

Lemma wf_good_log st :
  wf st <-> log_state st /\ good_log (MESSAGE_HISTORY st) (next_oid st).
Proof.
  split.
  - intros [? ? ? ?]. split; [done|]. split; [done|]. by split.
  - intros (? & ? & ? & ?). by constructor.
Qed.

Lemma good_log_snoc h n e :
  good_log h n -> entry_oid e = n -> good_log (h ++ [e]) (S n).
Proof.
  intros ((e0 & Hhd & Hm) & Hnd & Hfr) Hoid. repeat split.
  - exists e0. split; [|done]. destruct h; [done|by cbn in *].
  - rewrite fmap_app. apply NoDup_app. split; [done|]. split.
    + intros x Hx Hx'. cbn in Hx'. apply list_elem_of_singleton in Hx'.
      apply list_elem_of_fmap in Hx as (e1 & -> & He1).
      rewrite Forall_forall in Hfr. specialize (Hfr e1 He1). lia.
    + cbn. apply NoDup_singleton.
  - apply Forall_app. split.
    + eapply Forall_impl; [exact Hfr|]. cbn. intros. lia.
    + apply Forall_singleton. lia.
Qed.

Lemma good_log_take h n k :
  (0 < k)%nat -> good_log h n -> good_log (take k h) n.
Proof.
  intros Hk ((e0 & Hhd & Hm) & Hnd & Hfr). repeat split.
  - exists e0. split; [|done]. destruct h, k; cbn in *; done || lia.
  - rewrite fmap_take. eapply sublist_NoDup; [exact Hnd|apply sublist_take].
  - by apply Forall_take.
Qed.

Lemma good_log_cut_marker h n k meta :
  good_log h n -> good_log (take k h ++ [MarkerMessage n meta]) (S n).
Proof.
  intros Hg. destruct k as [|k].
  - rewrite take_0. cbn. repeat split.
    + by exists (MarkerMessage n meta).
    + cbn. apply NoDup_singleton.
    + apply Forall_singleton. cbn. lia.
  - apply good_log_snoc; [|done]. apply good_log_take; [lia|done].
Qed.

Lemma rank_at_end st :
  CURSOR st = js_len (MESSAGE_HISTORY st) - 1 ->
  rank st = count_markers (MESSAGE_HISTORY st).
Proof.
  intros Hend. unfold rank. rewrite take_ge; [done|].
  unfold js_len in Hend. lia.
Qed.

Lemma depth_le_rank st : (depth st <= rank st)%nat.
Proof.
  unfold depth, rank.
  replace (take (Z.to_nat (CURSOR st)) (MESSAGE_HISTORY st))
    with (take (Z.to_nat (CURSOR st))
            (take (S (Z.to_nat (CURSOR st))) (MESSAGE_HISTORY st)))
    by (rewrite take_take; f_equal; lia).
  apply count_markers_take_le.
Qed.

Lemma appendMessages_recorded ctx messages oldData st :
  undoListening ctx = true -> messages <> [] -> wf st ->
  let st' := appendMessages ctx messages oldData st in
  wf st'
  /\ CURSOR st' = js_len (MESSAGE_HISTORY st') - 1
  /\ (exists k,
        MESSAGE_HISTORY st'
        = drop k (take (S (Z.to_nat (CURSOR st))) (MESSAGE_HISTORY st))
          ++ [MessagesMessage (next_oid st) messages oldData (undoTag ctx)])
  /\ (count_markers (MESSAGE_HISTORY st') <= Z.to_nat HISTORY_SIZE)%nat
  /\ (rank st' <= rank st)%nat.
Proof.
  intros Hl Hne Hwf. unfold appendMessages. rewrite Hl.
  apply js_len_pos_cons in Hne. rewrite Hne. cbn [andb].
  destruct (trimHistory_wf st Hwf) as (Hwf1 & Hend1 & [k Hk] & Hcap & Hn).
  set (st1 := trimHistory st) in *. cbn zeta.
  apply wf_good_log in Hwf1 as [Hc1 Hg1]. unfold log_state in Hc1.
  assert (Hend' : CURSOR st1 + 1
                  = js_len (MESSAGE_HISTORY st1
                            ++ [MessagesMessage (next_oid st1) messages oldData
                                  (undoTag ctx)]) - 1)
    by (rewrite js_len_app; lia).
  split; [|split; [|split; [|split]]].
  - apply wf_good_log. split.
    + unfold log_state. cbn. rewrite js_len_app. lia.
    + cbn. by apply good_log_snoc.
  - exact Hend'.
  - exists k. cbn. by rewrite Hk, Hn.
  - cbn. rewrite count_markers_app. unfold count_markers at 2. cbn. lia.
  - rewrite rank_at_end by exact Hend'. cbn.
    rewrite count_markers_app. unfold count_markers at 2. cbn.
    rewrite Hk, Nat.add_0_r. etrans; [apply count_markers_drop_le|].
    done.
Qed.

Lemma appendMessages_cases ctx messages oldData st :
  appendMessages ctx messages oldData st = st
  \/ (undoListening ctx = true /\ messages <> []).
Proof.
  unfold appendMessages. destruct (undoListening ctx); [|by left].
  destruct messages; [by left|by right].
Qed.

Lemma appendMessages_wf ctx messages oldData st :
  wf st ->
  wf (appendMessages ctx messages oldData st)
  /\ (rank (appendMessages ctx messages oldData st) <= rank st)%nat.
Proof.
  intros Hwf.
  destruct (appendMessages_cases ctx messages oldData st) as [->|[Hl Hne]];
    [done|].
  destruct (appendMessages_recorded ctx messages oldData st Hl Hne Hwf)
    as (? & _ & _ & _ & ?). done.
Qed.

Lemma count_markers_le_length h : (count_markers h <= length h)%nat.
Proof.
  unfold count_markers. induction h as [|e h IH]; cbn; [done|].
  destruct (is_marker e); cbn; lia.
Qed.

Lemma count_markers_take_mono h n m :
  (n <= m)%nat -> (count_markers (take n h) <= count_markers (take m h))%nat.
Proof.
  intros Hnm.
  replace (take n h) with (take n (take m h))
    by (rewrite take_take; f_equal; lia).
  apply count_markers_take_le.
Qed.

Lemma withUndo_marker_wf meta st :
  wf st ->
  exists st1,
    withUndo_marker meta st = Some st1
    /\ wf st1
    /\ CURSOR st1 = js_len (MESSAGE_HISTORY st1) - 1
    /\ depth st1 = depth st
    /\ rank st1 = S (depth st)
    /\ (capped st -> capped st1).
Proof.
  intros Hwf. apply wf_good_log in Hwf as [Hc Hg].
  destruct (withUndo_marker_spec meta st Hc) as (last & Hlast & ->).
  unfold log_state, js_len in Hc.
  set (k := if is_marker last then Z.to_nat (CURSOR st)
            else S (Z.to_nat (CURSOR st))).
  assert (Hcur : (if is_marker last then CURSOR st else CURSOR st + 1)
                 = Z.of_nat k) by (unfold k; destruct (is_marker last); lia).
  rewrite Hcur.
  assert (Hk : (k <= length (MESSAGE_HISTORY st))%nat)
    by (unfold k; destruct (is_marker last); lia).
  assert (Hlen : length (take k (MESSAGE_HISTORY st)) = k)
    by (rewrite length_take; lia).
  assert (Hcount : count_markers (take k (MESSAGE_HISTORY st)) = depth st).
  { unfold k, depth. destruct (is_marker last) eqn:Hm; [done|].
    rewrite (take_S_r _ _ _ Hlast), count_markers_app.
    unfold count_markers at 2. cbn. rewrite Hm. cbn. lia. }
  eexists. split; [reflexivity|].
  assert (Hend : Z.of_nat k
                 = js_len (take k (MESSAGE_HISTORY st)
                           ++ [MarkerMessage (next_oid st) meta]) - 1)
    by (rewrite js_len_app; unfold js_len; lia).
  split; [|split; [|split; [|split]]].
  - apply wf_good_log. split.
    + unfold log_state. cbn [CURSOR MESSAGE_HISTORY bump_oid set_log].
      rewrite js_len_app. unfold js_len. lia.
    + cbn. by apply good_log_cut_marker.
  - exact Hend.
  - unfold depth at 1. cbn. rewrite Nat2Z.id.
    rewrite take_app_le by lia. rewrite take_ge by lia. done.
  - rewrite rank_at_end by exact Hend. cbn.
    rewrite count_markers_app, Hcount. unfold count_markers. cbn. lia.
  - unfold capped. cbn. intros Hcap. rewrite length_app, Hlen. cbn.
    replace (k + 1 - 1)%nat with k by lia.
    rewrite take_app_le by lia. rewrite take_ge by lia. rewrite Hcount.
    etrans; [|exact Hcap]. unfold depth. apply count_markers_take_mono. lia.
Qed.

Lemma undo_wf ctx st :
  wf st ->
  exists st',
    undo ctx st = Some st' /\ wf st'
    /\ MESSAGE_HISTORY st' = MESSAGE_HISTORY st
    /\ depth st' = pred (depth st).
Proof.
  intros Hwf. pose proof Hwf as [Hc (e0 & Hhd & Hm0) _ _].
  destruct (undo_spec ctx st Hc) as (st' & j & Hundo & Hj & Hcur & Hh & Hn & _).
  unfold log_state, js_len in Hc.
  destruct (walk_back_spec (MESSAGE_HISTORY st)
              (Z.to_nat (Z.max (CURSOR st - 1) 0)))
    as (j' & Hj' & Hle & Hcount & Hmark); [lia|].
  assert (j' = j) as -> by congruence.
  exists st'. split; [done|]. split; [|split; [done|]].
  - eapply wf_same_log; [exact Hh|exact Hn| |exact Hwf].
    unfold log_state, js_len. rewrite Hh, Hcur. lia.
  - unfold depth. rewrite Hh, Hcur, Nat2Z.id.
    destruct (decide (CURSOR st = 0)) as [Hz|Hnz].
    + rewrite Hz in *. cbn in Hle. assert (j = 0%nat) as -> by lia. done.
    + replace (Z.to_nat (CURSOR st))
        with (S (Z.to_nat (Z.max (CURSOR st - 1) 0))) by lia.
      rewrite Hcount.
      destruct (lookup_lt_is_Some_2 (MESSAGE_HISTORY st) j) as [ej Hej]; [lia|].
      rewrite (take_S_r _ _ _ Hej), count_markers_app.
      assert (is_marker ej = true) as Hmj.
      { destruct Hmark as [->|(e & He & Hm)]; [|congruence].
        rewrite head_lookup in Hhd. congruence. }
      rewrite count_markers_singleton, Hmj. lia.
Qed.

Lemma capped_same_log st st' :
  MESSAGE_HISTORY st' = MESSAGE_HISTORY st -> capped st -> capped st'.
Proof. unfold capped. by intros ->. Qed.

Lemma step_invariant st st' :
  step st st' -> wf st /\ capped st -> wf st' /\ capped st'.
Proof.
  intros Hstep [Hwf Hcap]. destruct Hstep as
    [ctx meta st st' Hw|ctx messages oldData st|ctx st st' Hu|ctx st st' Hr|st].
  - unfold withUndo in Hw.
    destruct (undoDisabled ctx || undoListening ctx); [by injection Hw as <-|].
    destruct (withUndo_marker_wf meta st Hwf)
      as (st1 & Hopen & Hwf1 & _ & _ & _ & Hcap1).
    rewrite Hopen in Hw. unfold withMutatorContext in Hw.
    injection Hw as <-. auto.
  - destruct (appendMessages_cases ctx messages oldData st) as [->|[Hl Hne]];
      [done|].
    destruct (appendMessages_recorded ctx messages oldData st Hl Hne Hwf)
      as (Hwf' & _ & _ & Hcount & _).
    split; [done|]. unfold capped. etrans; [|exact Hcount].
    apply count_markers_take_le.
  - destruct (undo_wf ctx st Hwf) as (st2 & Hu2 & Hwf2 & Hh & _).
    assert (st2 = st') as -> by congruence.
    split; [done|]. by eapply capped_same_log.
  - pose proof Hwf as [Hc _ _ _].
    destruct (redo_spec ctx st Hc) as (st2 & Hr2 & Hcur & Hh & Hn & _).
    assert (st2 = st') as -> by congruence. split.
    + eapply wf_same_log; [exact Hh|exact Hn| |exact Hwf].
      unfold log_state in *. rewrite Hh. lia.
    + by eapply capped_same_log.
  - split.
    + apply wf_good_log. split; [unfold log_state, js_len; cbn; lia|].
      cbn. apply (good_log_cut_marker (MESSAGE_HISTORY st) (next_oid st) 0%nat
                    JUndefined).
      by apply wf_good_log in Hwf as [_ ?].
    + unfold capped. cbn. unfold count_markers. cbn. lia.
Qed.

Lemma initial_invariant : wf initial_state /\ capped initial_state.
Proof.
  split.
  - constructor; cbn.
    + unfold log_state, js_len. cbn. lia.
    + by eexists.
    + apply NoDup_singleton.
    + apply Forall_singleton. cbn. lia.
  - unfold capped. cbn. unfold count_markers. cbn. lia.
Qed.

Lemma reachable_invariant st : reachable st -> wf st /\ capped st.
Proof.
  unfold reachable. intros Hr.
  eapply (rtc_ind_r (fun s => wf s /\ capped s));
    [apply initial_invariant| |exact Hr].
  intros y z _ Hstep IH. by eapply step_invariant.
Qed.

(** ** Runs are reachable *)

Lemma record_all_steps batches ctx st st' :
  record_all batches ctx st = Some st' -> rtc step st st'.
Proof.
  unfold record_all. intros [= <-]. revert st.
  induction batches as [|b bs IH]; intros st; cbn [foldl]; [done|].
  eapply rtc_l; [apply (step_appendMessages ctx (fst b) (snd b))|apply IH].
Qed.

Lemma run_transaction_steps ctx t st st' :
  run_transaction ctx t st = Some st' -> rtc step st st'.
Proof.
  unfold run_transaction, withUndo. intros Hrun.
  destruct (undoDisabled ctx || undoListening ctx) eqn:Hguard.
  - by eapply record_all_steps.
  - destruct (withUndo_marker (tx_meta t) st) as [st1|] eqn:Hopen; [|done].
    eapply rtc_l; [|by eapply record_all_steps].
    apply (step_withUndo ctx (tx_meta t)). unfold withUndo.
    by rewrite Hguard, Hopen.
Qed.

Lemma run_transactions_steps ctx txs st st' :
  run_transactions ctx txs st = Some st' -> rtc step st st'.
Proof.
  revert st. induction txs as [|t txs IH]; intros st; cbn [run_transactions].
  - by intros [= <-].
  - destruct (run_transaction ctx t st) as [st1|] eqn:Hrun; [|done].
    intros Hrest. etrans; [by eapply run_transaction_steps|by apply IH].
Qed.

Lemma two_batch_state_reachable : reachable two_batch_state.
Proof.
  apply (run_transaction_steps top_context two_batches). reflexivity.
Qed.

Lemma over_capacity_state_reachable : reachable over_capacity_state.
Proof.
  apply (run_transactions_steps top_context
           (replicate 20 one_batch ++ [mkTransaction (JStr "noop") []])).
  vm_compute. reflexivity.
Qed.

(** ** Markers *)

(** C5, as the code has it.  In every state reachable through [withUndo],
    [appendMessages], [undo], [redo] and [clearUndo], the cursor points
    into the log and the first entry is a marker, so that every batch has
    a marker somewhere before it.  The batches of one transaction follow
    one another: a batch need not come right after a marker. *)
Theorem reachable_starts_with_marker (st : State) :
  reachable st ->
  log_state st
  /\ (exists e, head (MESSAGE_HISTORY st) = Some e /\ is_marker e = true)
  /\ (forall i b,
        MESSAGE_HISTORY st !! i = Some b -> is_messages b = true ->
        exists j m,
          (j < i)%nat /\ MESSAGE_HISTORY st !! j = Some m
          /\ is_marker m = true).
Proof.
  intros Hr. destruct (reachable_invariant st Hr) as [[Hc Hhd _ _] _].
  split; [done|]. split; [done|].
  destruct Hhd as (e & He & Hm). rewrite head_lookup in He.
  intros i b Hb Hbm. exists 0%nat, e. split; [|done].
  destruct i; [|lia]. unfold is_messages in Hbm.
  assert (b = e) as -> by congruence. by rewrite Hm in Hbm.
Qed.

Lemma reachable_starts_with_marker_witness :
  log_state two_batch_state
  /\ (exists e,
        head (MESSAGE_HISTORY two_batch_state) = Some e
        /\ is_marker e = true)
  /\ (forall i b,
        MESSAGE_HISTORY two_batch_state !! i = Some b ->
        is_messages b = true ->
        exists j m,
          (j < i)%nat /\ MESSAGE_HISTORY two_batch_state !! j = Some m
          /\ is_marker m = true).
Proof.
  apply (reachable_starts_with_marker two_batch_state).
  apply (run_transaction_steps top_context two_batches). reflexivity.
Defined.

(** C5 as stated fails: a transaction that reports two batches leaves
    them next to each other, the second right after the first. *)
Lemma adjacent_batches_reachable :
  reachable two_batch_state
  /\ MESSAGE_HISTORY two_batch_state
     = [MarkerMessage 1 (JStr "import");
        MessagesMessage 2 [payee_created; mapping_created] ∅ JUndefined;
        MessagesMessage 3 [amount_500] amount_was_300 JUndefined]
  /\ ~ batches_follow_markers (MESSAGE_HISTORY two_batch_state).
Proof.
  split; [apply two_batch_state_reachable|]. split; [reflexivity|].
  intros Hinv.
  destruct (Hinv 1%nat (MessagesMessage 3 [amount_500] amount_was_300 JUndefined))
    as (m & Hm & Hmark); [reflexivity|reflexivity|].
  injection Hm as <-. discriminate Hmark.
Qed.

(** C6, as the code has it.  In every reachable state the log holds at
    most [HISTORY_SIZE + 1] markers, and at most [HISTORY_SIZE] before its
    last entry.  The capacity is enforced when a batch is recorded: the
    log is then a suffix of the entries up to the cursor followed by the
    new batch, it starts with a marker, and it holds at most
    [HISTORY_SIZE] markers.  Entries are dropped whole, from the front. *)
Theorem markers_bounded (st : State) :
  reachable st ->
  Z.of_nat (count_markers (MESSAGE_HISTORY st)) <= HISTORY_SIZE + 1
  /\ capped st
  /\ forall ctx messages oldData,
       undoListening ctx = true -> messages <> [] ->
       let st' := appendMessages ctx messages oldData st in
       Z.of_nat (count_markers (MESSAGE_HISTORY st')) <= HISTORY_SIZE
       /\ (exists k,
             MESSAGE_HISTORY st'
             = drop k (take (S (Z.to_nat (CURSOR st))) (MESSAGE_HISTORY st))
               ++ [MessagesMessage (next_oid st) messages oldData
                     (undoTag ctx)])
       /\ (exists e, head (MESSAGE_HISTORY st') = Some e
                     /\ is_marker e = true).
Proof.
  intros Hr. destruct (reachable_invariant st Hr) as [Hwf Hcap].
  split; [|split; [done|]].
  - unfold capped in Hcap.
    rewrite <- (take_drop (length (MESSAGE_HISTORY st) - 1) (MESSAGE_HISTORY st)).
    rewrite count_markers_app.
    pose proof (count_markers_le_length
                  (drop (length (MESSAGE_HISTORY st) - 1) (MESSAGE_HISTORY st)))
      as Hlast.
    rewrite length_drop in Hlast. unfold HISTORY_SIZE in *. lia.
  - intros ctx messages oldData Hl Hne.
    destruct (appendMessages_recorded ctx messages oldData st Hl Hne Hwf)
      as ([_ Hhd _ _] & _ & Hk & Hcount & _).
    cbn zeta. split; [unfold HISTORY_SIZE in *; lia|]. by split.
Qed.

Lemma markers_bounded_witness :
  Z.of_nat (count_markers (MESSAGE_HISTORY over_capacity_state))
  <= HISTORY_SIZE + 1
  /\ capped over_capacity_state
  /\ forall ctx messages oldData,
       undoListening ctx = true -> messages <> [] ->
       let st' := appendMessages ctx messages oldData over_capacity_state in
       Z.of_nat (count_markers (MESSAGE_HISTORY st')) <= HISTORY_SIZE
       /\ (exists k,
             MESSAGE_HISTORY st'
             = drop k (take (S (Z.to_nat (CURSOR over_capacity_state)))
                         (MESSAGE_HISTORY over_capacity_state))
               ++ [MessagesMessage (next_oid over_capacity_state) messages
                     oldData (undoTag ctx)])
       /\ (exists e, head (MESSAGE_HISTORY st') = Some e
                     /\ is_marker e = true).
Proof.
  apply (markers_bounded over_capacity_state).
  apply (run_transactions_steps top_context
           (replicate 20 one_batch ++ [mkTransaction (JStr "noop") []])).
  vm_compute. reflexivity.
Defined.

(** C6 as stated fails: after twenty recorded transactions, opening one
    more leaves twenty-one markers in the log, and they stay there if the
    new transaction records nothing. *)
Lemma marker_count_exceeds_capacity :
  reachable over_capacity_state
  /\ Z.of_nat (count_markers (MESSAGE_HISTORY over_capacity_state)) = 21
  /\ ~ Z.of_nat (count_markers (MESSAGE_HISTORY over_capacity_state))
       <= HISTORY_SIZE.
Proof.
  split; [apply over_capacity_state_reachable|].
  split; [vm_compute; reflexivity|]. vm_compute. intros H. by apply H.
Qed.

(** ** Undoing a whole run *)

Lemma record_all_wf batches ctx st :
  wf st ->
  exists st',
    record_all batches ctx st = Some st' /\ wf st'
    /\ (rank st' <= rank st)%nat.
Proof.
  unfold record_all. revert st.
  induction batches as [|b bs IH]; intros st Hwf; cbn [foldl].
  - by exists st.
  - destruct (appendMessages_wf ctx (fst b) (snd b) st Hwf) as [Hwf1 Hrank1].
    destruct (IH _ Hwf1) as (st' & Hrec & Hwf' & Hrank').
    exists st'. split; [done|]. split; [done|lia].
Qed.

Lemma run_transaction_depth ctx t st :
  undoListening ctx = false -> undoDisabled ctx = false -> wf st ->
  exists st',
    run_transaction ctx t st = Some st' /\ wf st'
    /\ (depth st' <= S (depth st))%nat.
Proof.
  intros Hl Hd Hwf. unfold run_transaction, withUndo. rewrite Hl, Hd.
  cbn [orb].
  destruct (withUndo_marker_wf (tx_meta t) st Hwf)
    as (st1 & -> & Hwf1 & _ & _ & Hrank1 & _).
  unfold withMutatorContext.
  destruct (record_all_wf (tx_batches t)
              (merge_context ctx
                 (mkOverrides (Some true) None (Some (undoTag ctx))))
              st1 Hwf1) as (st' & Hrec & Hwf' & Hrank').
  exists st'. split; [done|]. split; [done|].
  pose proof (depth_le_rank st'). lia.
Qed.

Lemma run_transactions_depth ctx txs st :
  undoListening ctx = false -> undoDisabled ctx = false -> wf st ->
  exists st',
    run_transactions ctx txs st = Some st' /\ wf st'
    /\ (depth st' <= depth st + length txs)%nat.
Proof.
  intros Hl Hd. revert st.
  induction txs as [|t txs IH]; intros st Hwf; cbn [run_transactions length].
  - exists st. split; [done|]. split; [done|lia].
  - destruct (run_transaction_depth ctx t st Hl Hd Hwf)
      as (st1 & -> & Hwf1 & Hdepth1).
    destruct (IH st1 Hwf1) as (st' & Hrun & Hwf' & Hdepth').
    exists st'. split; [done|]. split; [done|lia].
Qed.

Lemma undo_times_depth ctx n st :
  wf st ->
  exists st',
    undo_times ctx n st = Some st' /\ wf st'
    /\ depth st' = (depth st - n)%nat.
Proof.
  revert st. induction n as [|n IH]; intros st Hwf; cbn [undo_times].
  - exists st. split; [done|]. split; [done|lia].
  - destruct (undo_wf ctx st Hwf) as (st1 & -> & Hwf1 & _ & Hdepth1).
    destruct (IH st1 Hwf1) as (st' & Hrun & Hwf' & Hdepth').
    exists st'. split; [done|]. split; [done|lia].
Qed.

Lemma depth_zero_cursor st : wf st -> depth st = 0%nat -> CURSOR st = 0.
Proof.
  intros [Hc (e & Hhd & Hm) _ _] Hdepth. unfold log_state in Hc.
  destruct (decide (CURSOR st = 0)) as [|Hnz]; [done|exfalso].
  unfold depth in Hdepth.
  destruct (MESSAGE_HISTORY st) as [|e0 h]; [done|]. injection Hhd as ->.
  replace (Z.to_nat (CURSOR st)) with (S (Z.to_nat (CURSOR st - 1))) in Hdepth
    by lia.
  change (take _ (e :: h)) with ([e] ++ take (Z.to_nat (CURSOR st - 1)) h)
    in Hdepth.
  rewrite count_markers_app, count_markers_singleton, Hm in Hdepth. lia.
Qed.

(** C1.  Run any number [n] of transactions from the initial log, each a
    [withUndo] scope opened from a context that is neither listening nor
    disabled and reporting any batches, then call [undo] [n] times: every
    call returns, and the cursor ends at index 0, on a marker.  This
    holds for every [n], beyond the capacity as well; that every
    transaction records a batch is not needed. *)
Theorem undo_all_returns_to_start
    (ctx ctx' : Context) (txs : list Transaction) :
  undoListening ctx = false ->
  undoDisabled ctx = false ->
  exists st st',
    run_transactions ctx txs initial_state = Some st
    /\ undo_times ctx' (length txs) st = Some st'
    /\ CURSOR st' = 0
    /\ exists e, head (MESSAGE_HISTORY st') = Some e /\ is_marker e = true.
Proof.
  intros Hl Hd.
  destruct (run_transactions_depth ctx txs initial_state Hl Hd
              (proj1 initial_invariant)) as (st & Hrun & Hwf & Hdepth).
  destruct (undo_times_depth ctx' (length txs) st Hwf)
    as (st' & Hundo & Hwf' & Hdepth').
  exists st, st'. split; [done|]. split; [done|]. split.
  - apply depth_zero_cursor; [done|].
    change (depth initial_state) with 0%nat in Hdepth. lia.
  - by destruct Hwf'.
Qed.

Lemma undo_all_returns_to_start_witness :
  exists st st',
    run_transactions top_context (replicate 25 one_batch) initial_state
    = Some st
    /\ undo_times top_context (length (replicate 25 one_batch)) st = Some st'
    /\ CURSOR st' = 0
    /\ exists e, head (MESSAGE_HISTORY st') = Some e /\ is_marker e = true.
Proof.
  apply (undo_all_returns_to_start top_context top_context
           (replicate 25 one_batch)); reflexivity.
Defined.

(** Twenty-five one-batch transactions leave twenty of them in the log;
    twenty-five undos bring the cursor to the front. *)
Example undo_beyond_capacity :
  (fun st => (count_markers (MESSAGE_HISTORY st), CURSOR st))
    <$> run_transactions top_context (replicate 25 one_batch) initial_state
  = Some (20%nat, 39)
  /\ CURSOR
       <$> (run_transactions top_context (replicate 25 one_batch)
              initial_state
            ≫= undo_times top_context 25)
     = Some 0.
Proof. split; vm_compute; reflexivity. Qed.

(** ** Resurrections *)

Lemma split_on_dotless s : dotless s = true -> split_on "."%char s = [s].
Proof.
  induction s as [|a s IH]; cbn [split_on dotless]; [done|].
  intros [Ha Hs]%andb_prop. apply negb_true_iff in Ha. rewrite Ha.
  by rewrite (IH Hs).
Qed.

Lemma split_on_joined d r :
  dotless d = true ->
  split_on "."%char (d +:+ "." +:+ r) = d :: split_on "."%char r.
Proof.
  induction d as [|a d IH]; [done|]. cbn [dotless].
  intros [Ha Hd]%andb_prop. apply negb_true_iff in Ha.
  change (String a d +:+ "." +:+ r) with (String a (d +:+ "." +:+ r)).
  cbn [split_on]. by rewrite Ha, (IH Hd).
Qed.

Lemma resurrection_key m t :
  dotless (dataset m) = true -> dotless (row m) = true ->
  resurrection (resurrect_key m) t
  = mkMessage (dataset m) (row m) "tombstone" (JNum 0) t.
Proof.
  intros Hd Hr. unfold resurrection, resurrect_key.
  by rewrite (split_on_joined _ _ Hd), (split_on_dotless _ Hr).
Qed.

Lemma not_resurrected_spec d :
  negb (existsb (String.eqb d) not_resurrected) = true
  <-> d ∉ not_resurrected.
Proof.
  rewrite negb_true_iff, <- not_true_iff_false, existsb_exists.
  split.
  - intros Hno Hin. apply Hno. exists d.
    split; [by apply list_elem_of_In|apply String.eqb_refl].
  - intros Hno (x & Hin & Heq). apply String.eqb_eq in Heq as ->.
    by apply Hno, list_elem_of_In.
Qed.

Lemma needs_resurrection_spec oldData m :
  needs_resurrection oldData m = true
  <-> getIn oldData (dataset m) (row m) = None
      /\ dataset m ∉ not_resurrected.
Proof.
  unfold needs_resurrection. destruct (getIn _ _ _).
  - split; [done|by intros [? _]].
  - rewrite not_resurrected_spec. by split; [|intros [_ ?]].
Qed.

Lemma resurrect_step_eq oldData resurrect message :
  match getIn oldData (dataset message) (row message) with
  | Some _ => resurrect
  | None =>
      if negb (existsb (String.eqb (dataset message)) not_resurrected)
      then set_add (dataset message +:+ "." +:+ row message) resurrect
      else resurrect
  end
  = if needs_resurrection oldData message
    then set_add (resurrect_key message) resurrect else resurrect.
Proof. unfold needs_resurrection. by destruct (getIn _ _ _). Qed.

Lemma set_add_NoDup x s : NoDup s -> NoDup (set_add x s).
Proof.
  intros Hs. unfold set_add. case_bool_decide as Hx; [done|].
  apply NoDup_app. split; [done|]. split; [|apply NoDup_singleton].
  intros y Hy ->%list_elem_of_singleton. done.
Qed.

Lemma set_add_elem x y s : y ∈ set_add x s <-> y ∈ s \/ y = x.
Proof.
  unfold set_add. case_bool_decide as Hx.
  - split; [by left|]. by intros [?| ->].
  - rewrite elem_of_app, list_elem_of_singleton. done.
Qed.

Lemma resurrect_fold oldData messages acc :
  let keys :=
    foldl (fun resurrect message =>
             if needs_resurrection oldData message
             then set_add (resurrect_key message) resurrect else resurrect)
          acc messages in
  (NoDup acc -> NoDup keys)
  /\ forall x,
       x ∈ keys
       <-> x ∈ acc
           \/ exists m, m ∈ messages /\ needs_resurrection oldData m = true
                        /\ x = resurrect_key m.
Proof.
  revert acc. induction messages as [|m ms IH]; intros acc; cbn.
  - split; [done|]. intros x. split; [by left|].
    intros [?|(m & Hm & _)]; [done|]. by apply elem_of_nil in Hm.
  - destruct (IH (if needs_resurrection oldData m
                  then set_add (resurrect_key m) acc else acc))
      as [IHnd IHin].
    split.
    + intros Hacc. apply IHnd.
      destruct (needs_resurrection oldData m); [by apply set_add_NoDup|done].
    + intros x. rewrite IHin. split.
      * intros [Hx|(m' & Hm' & Hneed & ->)].
        -- destruct (needs_resurrection oldData m) eqn:Hneed; [|by left].
           apply set_add_elem in Hx as [?| ->]; [by left|].
           right. exists m. split; [apply list_elem_of_here|done].
        -- right. exists m'. split; [by apply list_elem_of_further|done].
      * intros [Hx|(m' & Hm' & Hneed & ->)].
        -- left. destruct (needs_resurrection oldData m); [|done].
           apply set_add_elem. by left.
        -- apply elem_of_cons in Hm' as [->|Hm'].
           ++ left. rewrite Hneed. apply set_add_elem. by right.
           ++ right. by exists m'.
Qed.

Lemma resurrect_set_fold messages oldData :
  resurrect_set messages oldData
  = foldl (fun resurrect message =>
             if needs_resurrection oldData message
             then set_add (resurrect_key message) resurrect else resurrect)
          [] messages.
Proof.
  unfold resurrect_set. generalize (@nil string).
  induction messages as [|m ms IH]; intros acc; cbn [foldl]; [done|].
  by rewrite resurrect_step_eq, IH.
Qed.

Lemma map_send_fmap {A B C} (f : A -> nat -> B) (g : B -> C) (g' : A -> C)
    (l : list A) clk :
  (forall x t, x ∈ l -> g (f x t) = g' x) ->
  g <$> fst (map_send f l clk) = g' <$> l.
Proof.
  revert clk. induction l as [|x l IH]; intros clk Hg; cbn; [done|].
  rewrite Hg by apply list_elem_of_here. f_equal.
  apply IH. intros y t Hy. apply Hg. by apply list_elem_of_further.
Qed.

Lemma map_send_Forall {A B} (f : A -> nat -> B) (P : B -> Prop) l clk :
  (forall x t, P (f x t)) -> Forall P (fst (map_send f l clk)).
Proof.
  intros HP. revert clk. induction l as [|x l IH]; intros clk; cbn;
    [done|]. by constructor.
Qed.

(** An identifier with a dot is cut at the dot: the key of row [c] of
    dataset [a.b] comes back as row [b] of dataset [a]. *)
Example resurrection_of_dotted_dataset :
  resurrection (resurrect_key (mkMessage "a.b" "c" "name" JNull 0)) 7
  = mkMessage "a" "b" "tombstone" (JNum 0) 7.
Proof. reflexivity. Qed.

Lemma redoResurrections_spec messages oldData clk :
  (forall m, m ∈ messages ->
             dotless (dataset m) = true /\ dotless (row m) = true) ->
  let res := fst (redoResurrections messages oldData clk) in
  Forall (fun t => column t = "tombstone" /\ value t = JNum 0) res
  /\ NoDup (target <$> res)
  /\ forall d r,
       (d, r) ∈ target <$> res
       <-> exists m, m ∈ messages /\ dataset m = d /\ row m = r
                     /\ getIn oldData d r = None /\ d ∉ not_resurrected.
Proof.
  intros Hdot. unfold redoResurrections. rewrite resurrect_set_fold.
  destruct (resurrect_fold oldData messages []) as [Hnd Hin].
  cbn zeta in Hnd, Hin. specialize (Hnd (NoDup_nil_2)).
  set (keys := foldl _ [] messages) in *.
  assert (Hkeys : forall x,
            x ∈ keys <->
            exists m, m ∈ messages /\ needs_resurrection oldData m = true
                      /\ x = resurrect_key m).
  { intros x. rewrite Hin. split; [|by right].
    intros [Hx|?]; [by apply elem_of_nil in Hx|done]. }
  assert (Htarget : forall m t,
            m ∈ messages ->
            target (resurrection (resurrect_key m) t) = (dataset m, row m)).
  { intros m t Hm. destruct (Hdot m Hm) as [Hd Hr].
    by rewrite resurrection_key. }
  cbn zeta. split; [|split].
  - apply map_send_Forall. by intros x t.
  - rewrite (map_send_fmap resurrection target
               (fun x => target (resurrection x 0))) by done.
    apply NoDup_fmap_2_strong; [|done].
    intros x y (m1 & Hm1 & _ & ->)%Hkeys (m2 & Hm2 & _ & ->)%Hkeys.
    rewrite !Htarget by done. unfold resurrect_key. by intros [= -> ->].
  - intros d r.
    rewrite (map_send_fmap resurrection target
               (fun x => target (resurrection x 0))) by done.
    rewrite list_elem_of_fmap. split.
    + intros (x & Hx & (m & Hm & Hneed & ->)%Hkeys).
      rewrite Htarget in Hx by done. injection Hx as -> ->.
      apply needs_resurrection_spec in Hneed as [? ?]. by exists m.
    + intros (m & Hm & <- & <- & Hnone & Hres).
      exists (resurrect_key m). split; [by rewrite Htarget|].
      apply Hkeys. exists m. split; [done|]. split; [|done].
      by apply needs_resurrection_spec.
Qed.

Lemma redo_collected_elem st st' e :
  e ∈ redo_collected st st' -> e ∈ MESSAGE_HISTORY st.
Proof.
  unfold redo_collected. intros He%list_elem_of_In.
  apply filter_In in He as [He _]. apply list_elem_of_In in He.
  unfold js_slice in He.
  eapply elem_of_sublist; [|apply sublist_drop].
  eapply elem_of_sublist; [exact He|apply sublist_take].
Qed.

(** C3, as the code has it.  On every log state [redo] returns.  It
    moves the cursor to the first marker after the old cursor, or to the
    last entry, and collects the batches it passes.  When it collects at
    least one batch it submits one list which is, batch by batch in log
    order, the recorded operations of the batch followed by the
    resurrections of that batch, under fresh timestamps.  Every
    resurrection is a tombstone-clear (column [tombstone], value 0).  For
    a batch in which no dataset or row identifier holds a dot, there is
    exactly one of them for each distinct (dataset, row) that an
    operation of the batch targets with no prior row in the snapshot of
    the batch and outside the six datasets that are not resurrected. *)
Theorem redo_replays_and_resurrects (ctx : Context) (st : State) :
  log_state st ->
  exists st',
    redo ctx st = Some st'
    /\ Z.min (CURSOR st + 1) (js_len (MESSAGE_HISTORY st) - 1) <= CURSOR st'
       <= js_len (MESSAGE_HISTORY st) - 1
    /\ (forall i,
          (Z.to_nat (Z.min (CURSOR st + 1) (js_len (MESSAGE_HISTORY st) - 1))
           <= i < Z.to_nat (CURSOR st'))%nat ->
          exists e, MESSAGE_HISTORY st !! i = Some e /\ is_marker e = false)
    /\ ((exists e, MESSAGE_HISTORY st !! Z.to_nat (CURSOR st') = Some e
                   /\ is_marker e = true)
        \/ CURSOR st' = js_len (MESSAGE_HISTORY st) - 1)
    /\ (redo_collected st st' = [] ->
        sent st' = sent st /\ announced st' = announced st)
    /\ (redo_collected st st' <> [] ->
        exists submitted,
          sent st' = sent st ++ [submitted]
          /\ erase_timestamp <$> submitted
             = erase_timestamp
                 <$> redo_ops (redo_collected st st') (clock st))
    /\ (forall e clk,
          Forall (fun t => column t = "tombstone" /\ value t = JNum 0)
            (fst (redoResurrections (entry_messages e) (entry_oldData e)
                    clk)))
    /\ forall e clk,
         (forall m, m ∈ entry_messages e ->
                    dotless (dataset m) = true /\ dotless (row m) = true) ->
         let res :=
           fst (redoResurrections (entry_messages e) (entry_oldData e) clk) in
         NoDup (target <$> res)
         /\ forall d r,
              (d, r) ∈ target <$> res
              <-> exists m,
                    m ∈ entry_messages e /\ dataset m = d /\ row m = r
                    /\ getIn (entry_oldData e) d r = None
                    /\ d ∉ not_resurrected.
Proof.
  intros Hst.
  destruct (redo_spec ctx st Hst)
    as (st' & Hredo & _ & _ & _ & Hnone & Hsome).
  destruct (redo_walk ctx st Hst) as (st2 & j & Hredo2 & Hj & Hcur & _).
  assert (st2 = st') as -> by congruence.
  unfold log_state in Hst.
  assert (H0 : 0 <= Z.min (CURSOR st + 1) (js_len (MESSAGE_HISTORY st) - 1))
    by lia.
  destruct (walk_forward_between _ _ _ _ H0 Hj) as (Hrange & Hbetween & Hend).
  exists st'. split; [done|]. rewrite Hcur.
  split; [lia|]. split; [done|].
  split; [destruct Hend as [?| ->]; [by left|right; lia]|].
  split; [done|]. split.
  - intros Hne. destruct (Hsome Hne) as (clk' & Hsent & _).
    eexists. split; [exact Hsent|]. apply stamp_erase.
  - split.
    + intros e clk. apply map_send_Forall. by intros x t.
    + intros e clk Hdot.
      by destruct (redoResurrections_spec (entry_messages e)
                     (entry_oldData e) clk Hdot) as (_ & ? & ?).
Qed.

Lemma redo_replays_and_resurrects_witness :
  exists st',
    redo top_context undone_state = Some st'
    /\ Z.min (CURSOR undone_state + 1)
         (js_len (MESSAGE_HISTORY undone_state) - 1) <= CURSOR st'
       <= js_len (MESSAGE_HISTORY undone_state) - 1
    /\ (forall i,
          (Z.to_nat (Z.min (CURSOR undone_state + 1)
                       (js_len (MESSAGE_HISTORY undone_state) - 1))
           <= i < Z.to_nat (CURSOR st'))%nat ->
          exists e, MESSAGE_HISTORY undone_state !! i = Some e
                    /\ is_marker e = false)
    /\ ((exists e,
           MESSAGE_HISTORY undone_state !! Z.to_nat (CURSOR st') = Some e
           /\ is_marker e = true)
        \/ CURSOR st' = js_len (MESSAGE_HISTORY undone_state) - 1)
    /\ (redo_collected undone_state st' = [] ->
        sent st' = sent undone_state
        /\ announced st' = announced undone_state)
    /\ (redo_collected undone_state st' <> [] ->
        exists submitted,
          sent st' = sent undone_state ++ [submitted]
          /\ erase_timestamp <$> submitted
             = erase_timestamp
                 <$> redo_ops (redo_collected undone_state st')
                       (clock undone_state))
    /\ (forall e clk,
          Forall (fun t => column t = "tombstone" /\ value t = JNum 0)
            (fst (redoResurrections (entry_messages e) (entry_oldData e)
                    clk)))
    /\ forall e clk,
         (forall m, m ∈ entry_messages e ->
                    dotless (dataset m) = true /\ dotless (row m) = true) ->
         let res :=
           fst (redoResurrections (entry_messages e) (entry_oldData e) clk) in
         NoDup (target <$> res)
         /\ forall d r,
              (d, r) ∈ target <$> res
              <-> exists m,
                    m ∈ entry_messages e /\ dataset m = d /\ row m = r
                    /\ getIn (entry_oldData e) d r = None
                    /\ d ∉ not_resurrected.
Proof.
  apply (redo_replays_and_resurrects top_context undone_state).
  vm_compute. split; [discriminate|reflexivity].
Defined.

(** The transaction of two batches, undone and redone: the cursor is back
    on the last entry, and the payee's tombstone-clear sits between the
    operations of the first batch and those of the second. *)
Example redo_two_batches :
  (fun st' =>
     (CURSOR st', option_map (List.map erase_timestamp) (last (sent st'))))
    <$> redo top_context undone_state
  = Some (2, Some [payee_created; mapping_created;
                   mkMessage "payees" "r2" "tombstone" (JNum 0) 0;
                   amount_500]).
Proof. vm_compute. reflexivity. Qed.

(** C3 as stated fails: when the redone transaction holds two batches,
    the tombstone-clear of the first batch is submitted before the
    operations of the second, not after all replayed originals. *)
Lemma redo_resurrects_between_batches :
  exists st' submitted,
    redo top_context undone_state = Some st'
    /\ last (sent st') = Some submitted
    /\ erase_timestamp <$> submitted
       = [payee_created; mapping_created;
          mkMessage "payees" "r2" "tombstone" (JNum 0) 0; amount_500]
    /\ erase_timestamp <$> design_redo_ops (redo_collected undone_state st')
       = [payee_created; mapping_created; amount_500;
          mkMessage "payees" "r2" "tombstone" (JNum 0) 0]
    /\ erase_timestamp <$> submitted
       <> erase_timestamp
            <$> design_redo_ops (redo_collected undone_state st').
Proof.
  eexists _, _. split; [vm_compute; reflexivity|].
  split; [vm_compute; reflexivity|]. split; [vm_compute; reflexivity|].
  split; [vm_compute; reflexivity|]. vm_compute. discriminate.
Qed.

(** * Further properties of the log *)

(** ** More on inverse derivation *)

(** X1.  [undoMessage] yields [null] in exactly two situations, both for
    a row that is absent from the snapshot: the dataset is one of the two
    mapping datasets, or it is one of the three budget datasets and the
    written column is none of [buffered], [amount], [carryover]. *)
Theorem undoMessage_null_iff (message : Message) (oldData : OldData) :
  undoMessage message oldData = None
  <-> getIn oldData (dataset message) (row message) = None
      /\ (dataset message = "category_mapping"
          \/ dataset message = "payee_mapping"
          \/ ((dataset message = "zero_budget_months"
               \/ dataset message = "zero_budgets"
               \/ dataset message = "reflect_budgets")
              /\ column message ∉ ["buffered"; "amount"; "carryover"])).
Proof.
  unfold undoMessage. destruct message as [ds r col v ts].
  cbn [dataset row column].
  destruct (getIn oldData ds r) as [item|];
    [split; [intros H; discriminate H|intros [H _]; discriminate H]|].
  assert (Hallow : existsb (String.eqb col) ["buffered"; "amount"; "carryover"]
                   = true
                   <-> col ∈ ["buffered"; "amount"; "carryover"]).
  { rewrite existsb_exists. split.
    - intros (x & Hin & Heq). apply String.eqb_eq in Heq. subst x.
      by apply list_elem_of_In.
    - intros Hin. exists col.
      split; [by apply list_elem_of_In|apply String.eqb_refl]. }
  destruct (existsb _ _) eqn:Hex.
  - assert (col ∈ ["buffered"; "amount"; "carryover"]) as Hin
      by (by apply Hallow).
    repeat match goal with
           | |- context [String.eqb ds ?b] =>
               destruct (String.eqb_spec ds b) as [->|?]
           end; cbn; try destruct (String.eqb col "expr");
      (split; [try discriminate; auto|]);
      intros [_ [H|[H|[[H|[H|H]] Hc]]]]; congruence.
  - assert (col ∉ ["buffered"; "amount"; "carryover"]) as Hout.
    { intros H. apply Hallow in H. done. }
    repeat match goal with
           | |- context [String.eqb ds ?b] =>
               destruct (String.eqb_spec ds b) as [->|?]
           end; cbn; try destruct (String.eqb col "expr");
      (split; [try discriminate; auto 10|]);
      intros [_ [H|[H|[[H|[H|H]] Hc]]]]; congruence.
Qed.

(** X2.  An inverse, when there is one, targets the dataset and row of
    the recorded operation and keeps its timestamp.  Its column is the
    recorded column, unless the row is absent from the snapshot and the
    inverse is the tombstone-set operation [tombstone = 1]. *)
Theorem undoMessage_frame
    (message : Message) (oldData : OldData) (inv : Message) :
  undoMessage message oldData = Some inv ->
  dataset inv = dataset message
  /\ row inv = row message
  /\ timestamp inv = timestamp message
  /\ (column inv = column message
      \/ (inv = with_tombstone (JNum 1) message
          /\ getIn oldData (dataset message) (row message) = None)).
Proof.
  unfold undoMessage.
  destruct (getIn oldData (dataset message) (row message)) as [item|].
  - intros [= <-]. cbn. auto.
  - repeat match goal with
           | |- context [if ?b then _ else _] => destruct b
           end;
      intros H; try discriminate H; injection H as <-; cbn;
      (repeat split; try done); first [by left|by right].
Qed.

Lemma undoMessage_frame_witness :
  dataset (with_tombstone (JNum 1) payee_created) = dataset payee_created
  /\ row (with_tombstone (JNum 1) payee_created) = row payee_created
  /\ timestamp (with_tombstone (JNum 1) payee_created)
     = timestamp payee_created
  /\ (column (with_tombstone (JNum 1) payee_created) = column payee_created
      \/ (with_tombstone (JNum 1) payee_created
          = with_tombstone (JNum 1) payee_created
          /\ getIn ∅ (dataset payee_created) (row payee_created) = None)).
Proof.
  apply (undoMessage_frame payee_created ∅
           (with_tombstone (JNum 1) payee_created)).
  vm_compute. reflexivity.
Defined.

Lemma map_send_elem {A B} (f : A -> nat -> B) (l : list A) clk x :
  x ∈ l -> exists t, f x t ∈ fst (map_send f l clk).
Proof.
  revert clk. induction l as [|y l IH]; intros clk Hx;
    [by apply elem_of_nil in Hx|].
  apply elem_of_cons in Hx as [->|Hx]; cbn.
  - exists clk. apply list_elem_of_here.
  - destruct (IH (S clk) Hx) as [t Ht]. exists t.
    by apply list_elem_of_further.
Qed.

Lemma resurrect_set_elem messages oldData x :
  x ∈ resurrect_set messages oldData
  <-> exists m, m ∈ messages /\ needs_resurrection oldData m = true
                /\ x = resurrect_key m.
Proof.
  rewrite resurrect_set_fold.
  destruct (resurrect_fold oldData messages []) as [_ Hin].
  cbn zeta in Hin. rewrite Hin. split; [|by right].
  intros [Hx|?]; [by apply elem_of_nil in Hx|done].
Qed.

(** X3.  Every row that [undo] soft-deletes is revived by [redo]: when
    the row of a recorded operation is absent from the snapshot and its
    inverse is the tombstone-set operation, the resurrections of a batch
    holding that operation contain the tombstone-clear of the same
    (dataset, row).  Identifiers are taken without a dot. *)
Theorem tombstoned_row_is_resurrected
    (messages : list Message) (oldData : OldData) (clk : nat)
    (message : Message) :
  message ∈ messages ->
  dotless (dataset message) = true ->
  dotless (row message) = true ->
  getIn oldData (dataset message) (row message) = None ->
  undoMessage message oldData = Some (with_tombstone (JNum 1) message) ->
  exists t,
    mkMessage (dataset message) (row message) "tombstone" (JNum 0) t
    ∈ fst (redoResurrections messages oldData clk).
Proof.
  intros Hin Hd Hr Hnone Hinv.
  assert (Hneed : needs_resurrection oldData message = true).
  { unfold needs_resurrection. rewrite Hnone.
    unfold undoMessage in Hinv. rewrite Hnone in Hinv.
    unfold not_resurrected. cbn [existsb].
    unfold with_value, with_tombstone in Hinv.
    destruct message as [ds r col v ts]. cbn [dataset row column] in *.
    repeat match goal with
           | |- context [String.eqb ds ?b] =>
               destruct (String.eqb_spec ds b) as [->|?]
           end; cbn in *; try done;
      repeat match type of Hinv with
             | context [if ?b then _ else _] => destruct b
             end; discriminate Hinv. }
  unfold redoResurrections.
  destruct (map_send_elem resurrection (resurrect_set messages oldData) clk
              (resurrect_key message)) as [t Ht].
  { apply resurrect_set_elem. by exists message. }
  exists t. by rewrite resurrection_key in Ht.
Qed.

Lemma tombstoned_row_is_resurrected_witness :
  exists t,
    mkMessage (dataset payee_created) (row payee_created) "tombstone"
      (JNum 0) t
    ∈ fst (redoResurrections [payee_created; mapping_created] ∅ 3).
Proof.
  apply (tombstoned_row_is_resurrected [payee_created; mapping_created] ∅ 3
           payee_created).
  - apply list_elem_of_here.
  - reflexivity.
  - reflexivity.
  - vm_compute. reflexivity.
  - vm_compute. reflexivity.
Defined.

(** X4.  [redoResurrections] yields nothing exactly when every operation
    of the batch either has its row in the snapshot or belongs to one of
    the six datasets that are never resurrected; [redo] then replays the
    recorded operations of that batch and nothing else. *)
Theorem redoResurrections_nil_iff
    (messages : list Message) (oldData : OldData) (clk : nat) :
  fst (redoResurrections messages oldData clk) = []
  <-> forall m,
        m ∈ messages ->
        is_Some (getIn oldData (dataset m) (row m))
        \/ dataset m ∈ not_resurrected.
Proof.
  unfold redoResurrections. split.
  - intros Hnil m Hm.
    destruct (getIn oldData (dataset m) (row m)) as [item|] eqn:Hrow;
      [by left; eexists|right].
    destruct (decide (dataset m ∈ not_resurrected)) as [|Hout]; [done|].
    destruct (map_send_elem resurrection (resurrect_set messages oldData) clk
                (resurrect_key m)) as [t Ht].
    { apply resurrect_set_elem. exists m. split; [done|]. split; [|done].
      by apply needs_resurrection_spec. }
    rewrite Hnil in Ht. by apply elem_of_nil in Ht.
  - intros Hall.
    assert (resurrect_set messages oldData = []) as ->; [|done].
    apply elem_of_nil_inv. intros x (m & Hm & Hneed & _)%resurrect_set_elem.
    apply needs_resurrection_spec in Hneed as [Hnone Hout].
    destruct (Hall m Hm) as [[item Hitem]|?]; [congruence|done].
Qed.

(** ** More on submission *)

Lemma map_send_lookup {A B} (f : A -> nat -> B) (l : list A) clk i :
  fst (map_send f l clk) !! i = (fun x => f x (clk + i)%nat) <$> l !! i.
Proof.
  revert clk i. induction l as [|x l IH]; intros clk i; [done|].
  destruct i as [|i]; cbn.
  - by rewrite Nat.add_0_r.
  - rewrite IH. by replace (S clk + i)%nat with (clk + S i)%nat by lia.
Qed.

Lemma map_send_clock {A B} (f : A -> nat -> B) (l : list A) clk :
  snd (map_send f l clk) = (clk + length l)%nat.
Proof.
  revert clk. induction l as [|x l IH]; intros clk; cbn; [lia|].
  rewrite IH. lia.
Qed.

Lemma tables_fold (messages : list Message) (acc : list string) :
  let tables :=
    foldl (fun acc message =>
             if bool_decide (dataset message ∈ acc) then acc
             else acc ++ [dataset message]) acc messages in
  (NoDup acc -> NoDup tables)
  /\ forall d, d ∈ tables
               <-> d ∈ acc \/ exists m, m ∈ messages /\ dataset m = d.
Proof.
  revert acc. induction messages as [|m ms IH]; intros acc; cbn.
  - split; [done|]. intros d. split; [by left|].
    intros [?|(m & Hm & _)]; [done|]. by apply elem_of_nil in Hm.
  - destruct (IH (set_add (dataset m) acc)) as [IHnd IHin].
    unfold set_add in IHnd, IHin. split.
    + intros Hacc. apply IHnd. by apply (set_add_NoDup (dataset m)).
    + intros d. rewrite IHin.
      rewrite (set_add_elem (dataset m) d acc). split.
      * intros [[?| ->]|(m' & Hm' & <-)]; [by left| |].
        -- right. exists m. split; [apply list_elem_of_here|done].
        -- right. exists m'. split; [by apply list_elem_of_further|done].
      * intros [?|(m' & Hm' & <-)]; [by left; left|].
        apply elem_of_cons in Hm' as [->|Hm']; [by left; right|].
        right. by exists m'.
Qed.

(** X5.  Whatever the ambient context, even a listening one,
    [applyUndoAction] records nothing: log and cursor stay as they are.
    It submits the given operations once, in order, each under the next
    clock value, and advances the clock by their number.  It announces
    the operations as given, with the distinct datasets they touch. *)
Theorem applyUndoAction_outputs
    (messages : list Message) (meta undoTag : jsval) (ctx : Context)
    (st : State) :
  exists submitted tables,
    sent (applyUndoAction messages meta undoTag ctx st)
    = sent st ++ [submitted]
    /\ announced (applyUndoAction messages meta undoTag ctx st)
       = announced st ++ [mkUndoState messages tables meta undoTag]
    /\ (forall i,
          submitted !! i
          = (fun m => with_timestamp (clock st + i) m) <$> messages !! i)
    /\ clock (applyUndoAction messages meta undoTag ctx st)
       = (clock st + length messages)%nat
    /\ NoDup tables
    /\ (forall d, d ∈ tables <-> exists m, m ∈ messages /\ dataset m = d)
    /\ MESSAGE_HISTORY (applyUndoAction messages meta undoTag ctx st)
       = MESSAGE_HISTORY st
    /\ CURSOR (applyUndoAction messages meta undoTag ctx st) = CURSOR st.
Proof.
  unfold applyUndoAction, withMutatorContext.
  rewrite sendMessages_not_listening by done. cbn.
  destruct (tables_fold messages []) as [Hnd Hin]. cbn zeta in Hnd, Hin.
  eexists _, _. split; [reflexivity|]. split; [reflexivity|].
  split; [intros i; apply map_send_lookup|].
  split; [apply map_send_clock|]. split; [apply Hnd, NoDup_nil_2|].
  split; [|done]. intros d. rewrite Hin. split; [|by right].
  intros [Hd|?]; [by apply elem_of_nil in Hd|done].
Qed.

(** ** More on transactions *)

(** X6.  A transaction opened inside a transaction is transparent: it
    adds no marker and its annotation is dropped, so the work is recorded
    under the enclosing transaction.  The same holds for a handler
    wrapped by [undoable]. *)
Theorem withUndo_nested
    (func : Context -> State -> option State) (meta1 meta2 : jsval)
    (ctx : Context) (st : State) :
  withUndo (withUndo func meta2) meta1 ctx st = withUndo func meta1 ctx st
  /\ forall (Args : Type) (handler : Args -> Context -> State -> option State)
            (metaFunc : option (Args -> jsval)) (args : Args),
       withUndo (undoable handler metaFunc args) meta1 ctx st
       = withUndo (handler args) meta1 ctx st.
Proof.
  assert (Hnest : forall f m2,
            withUndo (withUndo f m2) meta1 ctx st = withUndo f meta1 ctx st).
  { intros f m2. unfold withUndo at 1 3.
    destruct (undoDisabled ctx || undoListening ctx) eqn:Hguard.
    - unfold withUndo. by rewrite Hguard.
    - destruct (withUndo_marker meta1 st) as [st1|]; [|done].
      unfold withMutatorContext, withUndo. cbn. by rewrite orb_true_r. }
  split; [apply Hnest|]. intros Args handler metaFunc args. apply Hnest.
Qed.

(** ** The ends of history *)

Lemma undo_at_start ctx st :
  log_state st -> CURSOR st = 0 ->
  (exists e, head (MESSAGE_HISTORY st) = Some e /\ is_marker e = true) ->
  undo ctx st = Some st.
Proof.
  destruct st as [h c n clk sto snt ann]. cbn.
  intros Hc -> (e & Hhd & Hm). unfold log_state, js_len in Hc. cbn in Hc.
  destruct h as [|e0 h]; [done|]. injection Hhd as ->.
  unfold undo. cbn [MESSAGE_HISTORY CURSOR].
  change (Z.to_nat (Z.max (0 - 1) 0)) with 0%nat. cbn [walk_back].
  change (Z.of_nat 0) with 0. change (js_at (e :: h) 0) with (Some e).
  rewrite js_slice_range by lia.
  change (Z.to_nat (0 + 1) - Z.to_nat (Z.max 0 0))%nat with 1%nat.
  change (Z.to_nat (Z.max 0 0)) with 0%nat.
  cbn [drop take List.filter]. unfold is_messages. rewrite Hm.
  reflexivity.
Qed.

(** X7.  At the two ends of history the controller does nothing at all:
    [undo] with the cursor on the first marker, and [redo] with the
    cursor on the last entry, return the state as it is, with nothing
    submitted and nothing announced. *)
Theorem undo_redo_at_the_ends (ctx : Context) (st : State) :
  wf st ->
  (CURSOR st = 0 -> undo ctx st = Some st)
  /\ (CURSOR st = js_len (MESSAGE_HISTORY st) - 1 -> redo ctx st = Some st).
Proof.
  intros [Hc Hhd _ _]. split.
  - intros Hz. by apply undo_at_start.
  - intros Hend. by apply redo_at_end.
Qed.

Lemma undo_redo_at_the_ends_witness :
  (CURSOR initial_state = 0 -> undo top_context initial_state
                               = Some initial_state)
  /\ (CURSOR initial_state = js_len (MESSAGE_HISTORY initial_state) - 1 ->
      redo top_context initial_state = Some initial_state).
Proof.
  apply (undo_redo_at_the_ends top_context initial_state).
  apply initial_invariant.
Defined.

(** X8.  [clearUndo] forgets everything, from any state, well formed or
    not: the log is one fresh marker with no annotation under the
    cursor, and [undo] and [redo] then do nothing. *)
Theorem clearUndo_forgets (ctx : Context) (st : State) :
  MESSAGE_HISTORY (clearUndo st) = [MarkerMessage (next_oid st) JUndefined]
  /\ CURSOR (clearUndo st) = 0
  /\ wf (clearUndo st)
  /\ undo ctx (clearUndo st) = Some (clearUndo st)
  /\ redo ctx (clearUndo st) = Some (clearUndo st).
Proof.
  assert (Hwf : wf (clearUndo st)).
  { constructor; cbn.
    - unfold log_state, js_len. cbn. lia.
    - by eexists.
    - apply NoDup_singleton.
    - apply Forall_singleton. cbn. lia. }
  split; [done|]. split; [done|]. split; [done|].
  pose proof Hwf as Hwf'. destruct Hwf' as [Hc Hhd _ _].
  split; [by apply undo_at_start|by apply redo_at_end].
Qed.

Lemma record_all_empty batches ctx st :
  Forall (fun b => fst b = []) batches -> record_all batches ctx st = Some st.
Proof.
  unfold record_all. intros Hall. f_equal.
  induction Hall as [|b bs Hb _ IH]; [done|].
  cbn [foldl]. by rewrite Hb, appendMessages_nil.
Qed.

(** X9.  A transaction that records nothing leaves only its marker, and
    the next transaction takes that marker over: the log keeps its
    length, the cursor stays, and the marker carries the annotation of
    the later transaction. *)
Theorem empty_transactions_coalesce
    (ctx : Context) (meta1 meta2 : jsval)
    (batches : list (list Message * OldData)) (st : State) :
  log_state st ->
  undoListening ctx = false ->
  undoDisabled ctx = false ->
  Forall (fun b => fst b = []) batches ->
  exists st1 pre,
    withUndo (record_all batches) meta1 ctx st = Some st1
    /\ MESSAGE_HISTORY st1 = pre ++ [MarkerMessage (next_oid st) meta1]
    /\ CURSOR st1 = js_len pre
    /\ forall func,
         withUndo func meta2 ctx st1
         = func (merge_context ctx
                   (mkOverrides (Some true) None (Some (undoTag ctx))))
                (bump_oid
                   (set_log (pre ++ [MarkerMessage (next_oid st1) meta2])
                            (CURSOR st1) st1)).
Proof.
  intros Hst Hl Hd Hempty.
  destruct (withUndo_marker_spec meta1 st Hst) as (last & Hlast & Hopen).
  unfold log_state, js_len in Hst.
  set (k := if is_marker last then Z.to_nat (CURSOR st)
            else S (Z.to_nat (CURSOR st))) in *.
  assert (Hcur : (if is_marker last then CURSOR st else CURSOR st + 1)
                 = Z.of_nat k) by (unfold k; destruct (is_marker last); lia).
  rewrite Hcur in Hopen.
  assert (Hlen : length (take k (MESSAGE_HISTORY st)) = k)
    by (rewrite length_take; unfold k; destruct (is_marker last); lia).
  set (st1 := bump_oid
                (set_log (take k (MESSAGE_HISTORY st)
                          ++ [MarkerMessage (next_oid st) meta1])
                         (Z.of_nat k) st)) in *.
  exists st1, (take k (MESSAGE_HISTORY st)).
  split; [|split; [done|split; [unfold js_len; cbn; lia|]]].
  - unfold withUndo. rewrite Hl, Hd, Hopen. cbn [orb].
    unfold withMutatorContext. by apply record_all_empty.
  - intros func.
    assert (Hst1 : log_state st1).
    { unfold log_state. cbn [st1 CURSOR MESSAGE_HISTORY bump_oid set_log].
      rewrite js_len_app. unfold js_len. lia. }
    destruct (withUndo_marker_spec meta2 st1 Hst1) as (last1 & Hlast1 & Hopen1).
    cbn [st1 CURSOR MESSAGE_HISTORY bump_oid set_log] in Hlast1.
    rewrite Nat2Z.id, lookup_app_r, Hlen, Nat.sub_diag in Hlast1 by lia.
    injection Hlast1 as <-. cbn [is_marker] in Hopen1.
    unfold withUndo. rewrite Hl, Hd, Hopen1. cbn [orb].
    unfold withMutatorContext. do 3 f_equal.
    cbn [st1 CURSOR MESSAGE_HISTORY bump_oid set_log].
    rewrite Nat2Z.id, take_app_le, take_ge by lia. done.
Qed.

Lemma empty_transactions_coalesce_witness :
  exists st1 pre,
    withUndo (record_all [([], ∅)]) (JStr "first") top_context two_batch_state
    = Some st1
    /\ MESSAGE_HISTORY st1
       = pre ++ [MarkerMessage (next_oid two_batch_state) (JStr "first")]
    /\ CURSOR st1 = js_len pre
    /\ forall func,
         withUndo func (JStr "second") top_context st1
         = func (merge_context top_context
                   (mkOverrides (Some true) None
                      (Some (undoTag top_context))))
                (bump_oid
                   (set_log
                      (pre ++ [MarkerMessage (next_oid st1) (JStr "second")])
                      (CURSOR st1) st1)).
Proof.
  apply (empty_transactions_coalesce top_context (JStr "first")
           (JStr "second") [([], ∅)] two_batch_state).
  - vm_compute. split; [discriminate|reflexivity].
  - reflexivity.
  - reflexivity.
  - repeat constructor.
Defined.

(** ** Where the cursor rests *)

Lemma walk_back_reach h k t :
  (k < length h)%nat -> (t <= k)%nat ->
  (t = 0%nat \/ exists e, h !! t = Some e /\ is_marker e = true) ->
  (forall i, (t < i <= k)%nat ->
             exists e, h !! i = Some e /\ is_marker e = false) ->
  walk_back h k = Some t.
Proof.
  induction k as [|k IH]; intros Hk Ht Hmark Hbetween; cbn [walk_back].
  - f_equal. lia.
  - destruct (decide (t = S k)) as [-> |Hne].
    + destruct Hmark as [?|(e & -> & ->)]; done.
    + destruct (Hbetween (S k)) as (e & -> & ->); [lia|].
      apply IH; [lia|lia|done|]. intros i Hi. apply Hbetween. lia.
Qed.

Lemma walk_forward_reach h c d t :
  0 <= c <= t -> t <= c + Z.of_nat d ->
  (forall i, (Z.to_nat c <= i < Z.to_nat t)%nat ->
             exists e, h !! i = Some e /\ is_marker e = false) ->
  ((exists e, h !! Z.to_nat t = Some e /\ is_marker e = true)
   \/ t = c + Z.of_nat d) ->
  walk_forward h c d = Some t.
Proof.
  revert c. induction d as [|d IH]; intros c Hc Ht Hbetween Hend;
    cbn [walk_forward].
  - f_equal. lia.
  - rewrite js_at_lookup by lia.
    destruct (decide (c = t)) as [-> |Hne].
    + destruct Hend as [(e & -> & ->)|?]; [done|lia].
    + destruct (Hbetween (Z.to_nat c)) as (e & -> & ->); [lia|].
      apply IH; [lia|lia| |].
      * intros i Hi. apply Hbetween. lia.
      * destruct Hend as [?| ->]; [by left|right; lia].
Qed.

Lemma undo_marker ctx st :
  wf st ->
  exists st' j e,
    undo ctx st = Some st'
    /\ walk_back (MESSAGE_HISTORY st) (Z.to_nat (Z.max (CURSOR st - 1) 0))
       = Some j
    /\ CURSOR st' = Z.of_nat j
    /\ MESSAGE_HISTORY st' = MESSAGE_HISTORY st
    /\ next_oid st' = next_oid st
    /\ MESSAGE_HISTORY st !! j = Some e /\ is_marker e = true
    /\ (j <= Z.to_nat (Z.max (CURSOR st - 1) 0))%nat.
Proof.
  intros [Hc (e0 & Hhd & Hm0) _ _].
  destruct (undo_spec ctx st Hc) as (st' & j & Hundo & Hj & Hcur & Hh & Hn & _).
  unfold log_state, js_len in Hc.
  destruct (walk_back_spec (MESSAGE_HISTORY st)
              (Z.to_nat (Z.max (CURSOR st - 1) 0)))
    as (j' & Hj' & Hle & _ & Hmark); [lia|].
  assert (j' = j) as -> by congruence.
  assert (exists e, MESSAGE_HISTORY st !! j = Some e /\ is_marker e = true)
    as (e & He & Hm).
  { destruct Hmark as [-> |?]; [|done]. exists e0.
    by rewrite <- head_lookup. }
  exists st', j, e. done.
Qed.

Lemma step_boundary st st' :
  step st st' -> wf st -> at_boundary st -> at_boundary st'.
Proof.
  intros Hstep Hwf Hb. destruct Hstep as
    [ctx meta st st' Hw|ctx messages oldData st|ctx st st' Hu|ctx st st' Hr|st].
  - unfold withUndo in Hw.
    destruct (undoDisabled ctx || undoListening ctx); [by injection Hw as <-|].
    destruct (withUndo_marker_wf meta st Hwf) as (st1 & Hopen & _ & Hend & _).
    rewrite Hopen in Hw. unfold withMutatorContext in Hw.
    injection Hw as <-. by right.
  - destruct (appendMessages_cases ctx messages oldData st) as [-> |[Hl Hne]];
      [done|].
    destruct (appendMessages_recorded ctx messages oldData st Hl Hne Hwf)
      as (_ & Hend & _). by right.
  - destruct (undo_marker ctx st Hwf)
      as (st2 & j & e & Hu2 & _ & Hcur & Hh & _ & He & Hm & _).
    assert (st2 = st') as -> by congruence.
    left. exists e. by rewrite Hh, Hcur, Nat2Z.id.
  - pose proof Hwf as [Hc _ _ _].
    destruct (redo_walk ctx st Hc) as (st2 & j & Hr2 & Hj & Hcur & Hh & _).
    assert (st2 = st') as -> by congruence.
    unfold log_state in Hc.
    assert (H0 : 0 <= Z.min (CURSOR st + 1)
                       (js_len (MESSAGE_HISTORY st) - 1)) by lia.
    destruct (walk_forward_between _ _ _ _ H0 Hj)
      as (_ & _ & [Hmark| ->]).
    + left. by rewrite Hh, Hcur.
    + right. rewrite Hh, Hcur. lia.
  - right. unfold js_len. by cbn.
Qed.

Lemma reachable_boundary st : reachable st -> wf st /\ at_boundary st.
Proof.
  unfold reachable. intros Hr.
  eapply (rtc_ind_r (fun s => wf s /\ at_boundary s)); [| |exact Hr].
  - split; [apply initial_invariant|]. right. unfold js_len. by cbn.
  - intros y z Hy Hstep [Hwf Hb]. split.
    + by destruct (step_invariant y z Hstep
                     (reachable_invariant y Hy)).
    + by eapply step_boundary.
Qed.

Lemma filter_messages_marker e l :
  is_marker e = true ->
  List.filter is_messages (e :: l) = List.filter is_messages l.
Proof. intros Hm. cbn [List.filter]. unfold is_messages at 1. by rewrite Hm. Qed.

Lemma slice_from_marker h j c e :
  h !! j = Some e -> is_marker e = true -> (j <= Z.to_nat c)%nat -> 0 <= c ->
  List.filter is_messages (js_slice h (Z.of_nat j) (c + 1))
  = List.filter is_messages (js_slice h (Z.of_nat j + 1) (c + 1)).
Proof.
  intros He Hm Hj Hc. rewrite !js_slice_range by lia.
  rewrite Nat2Z.id.
  replace (Z.to_nat (Z.of_nat j + 1)) with (S j) by lia.
  rewrite (drop_S _ _ _ He).
  replace (Z.to_nat (c + 1) - j)%nat with (S (Z.to_nat (c + 1) - S j)) by lia.
  cbn [take]. by apply filter_messages_marker.
Qed.

(** X10.  In every reachable state the cursor rests on a marker or on
    the last entry of the log, never on a batch that another entry
    follows. *)
Theorem reachable_cursor_at_boundary (st : State) :
  reachable st -> at_boundary st.
Proof. intros Hr. by destruct (reachable_boundary st Hr). Qed.

Lemma reachable_cursor_at_boundary_witness : at_boundary undone_state.
Proof.
  apply (reachable_cursor_at_boundary undone_state).
  eapply rtc_r; [apply two_batch_state_reachable|].
  apply (step_undo top_context). reflexivity.
Defined.

(** X11.  On a well-formed log [undo] always lands on a marker, strictly
    to the left of where the cursor was unless that was index 0; [redo]
    lands on a marker or on the last entry, strictly to the right unless
    the cursor was on the last entry. *)
Theorem undo_redo_move_to_boundaries (ctx : Context) (st : State) :
  wf st ->
  (exists st' e,
     undo ctx st = Some st'
     /\ MESSAGE_HISTORY st !! Z.to_nat (CURSOR st') = Some e
     /\ is_marker e = true
     /\ (0 < CURSOR st -> CURSOR st' < CURSOR st)
     /\ (CURSOR st = 0 -> CURSOR st' = 0))
  /\ (exists st',
        redo ctx st = Some st'
        /\ at_boundary st'
        /\ (CURSOR st < js_len (MESSAGE_HISTORY st) - 1 ->
            CURSOR st < CURSOR st')
        /\ (CURSOR st = js_len (MESSAGE_HISTORY st) - 1 ->
            CURSOR st' = CURSOR st)).
Proof.
  intros Hwf. pose proof Hwf as [Hc _ _ _]. split.
  - destruct (undo_marker ctx st Hwf)
      as (st' & j & e & Hu & _ & Hcur & _ & _ & He & Hm & Hle).
    exists st', e. rewrite Hcur, Nat2Z.id. unfold log_state in Hc.
    repeat (split; [done|]). split; lia.
  - destruct (redo_walk ctx st Hc) as (st' & j & Hr & Hj & Hcur & Hh & _).
    unfold log_state in Hc.
    assert (H0 : 0 <= Z.min (CURSOR st + 1)
                       (js_len (MESSAGE_HISTORY st) - 1)) by lia.
    destruct (walk_forward_between _ _ _ _ H0 Hj)
      as (Hrange & _ & Hend).
    exists st'. split; [done|]. split; [|split; lia].
    destruct Hend as [Hmark| ->].
    + left. by rewrite Hh, Hcur.
    + right. rewrite Hh, Hcur. lia.
Qed.

Lemma undo_redo_move_to_boundaries_witness :
  (exists st' e,
     undo top_context two_batch_state = Some st'
     /\ MESSAGE_HISTORY two_batch_state !! Z.to_nat (CURSOR st') = Some e
     /\ is_marker e = true
     /\ (0 < CURSOR two_batch_state -> CURSOR st' < CURSOR two_batch_state)
     /\ (CURSOR two_batch_state = 0 -> CURSOR st' = 0))
  /\ (exists st',
        redo top_context two_batch_state = Some st'
        /\ at_boundary st'
        /\ (CURSOR two_batch_state
            < js_len (MESSAGE_HISTORY two_batch_state) - 1 ->
            CURSOR two_batch_state < CURSOR st')
        /\ (CURSOR two_batch_state
            = js_len (MESSAGE_HISTORY two_batch_state) - 1 ->
            CURSOR st' = CURSOR two_batch_state)).
Proof.
  apply (undo_redo_move_to_boundaries top_context two_batch_state).
  apply reachable_invariant, two_batch_state_reachable.
Defined.

(** X12.  In a reachable state with something to undo, [redo] right
    after [undo] brings the cursor back to where it was, leaves the log
    as it is, and replays exactly the batches that [undo] reversed. *)
Theorem redo_after_undo (ctx ctx' : Context) (st : State) :
  reachable st ->
  0 < CURSOR st ->
  exists su sr,
    undo ctx st = Some su
    /\ redo ctx' su = Some sr
    /\ CURSOR sr = CURSOR st
    /\ MESSAGE_HISTORY sr = MESSAGE_HISTORY st
    /\ redo_collected su sr = undo_collected st su.
Proof.
  intros Hr Hpos. destruct (reachable_boundary st Hr) as [Hwf Hb].
  pose proof Hwf as [Hc _ _ _]. unfold log_state, js_len in Hc.
  destruct (undo_marker ctx st Hwf)
    as (su & j & e & Hu & Hj & Hcur & Hh & Hn & He & Hm & Hle).
  pose proof (walk_back_between _ _ _ Hj) as Hbetween.
  assert (Hsu : log_state su)
    by (unfold log_state, js_len; rewrite Hh, Hcur; lia).
  destruct (redo_walk ctx' su Hsu) as (sr & k & Hredo & Hk & Hcur' & Hh' & _).
  rewrite Hh, Hcur in Hk. unfold js_len in Hk.
  rewrite Z.min_l in Hk by lia.
  rewrite (walk_forward_reach _ _ _ (CURSOR st)) in Hk.
  - injection Hk as <-. exists su, sr. split; [done|]. split; [done|].
    split; [done|]. split; [by rewrite Hh', Hh|].
    unfold redo_collected, undo_collected. rewrite Hh, Hcur, Hcur'.
    symmetry. by apply (slice_from_marker _ _ _ e); [| |lia|lia].
  - lia.
  - lia.
  - intros i Hi. apply Hbetween. lia.
  - destruct Hb as [?|Hend]; [by left|right].
    unfold js_len in Hend. lia.
Qed.

Lemma redo_after_undo_witness :
  exists su sr,
    undo top_context two_batch_state = Some su
    /\ redo listening_but_disabled su = Some sr
    /\ CURSOR sr = CURSOR two_batch_state
    /\ MESSAGE_HISTORY sr = MESSAGE_HISTORY two_batch_state
    /\ redo_collected su sr = undo_collected two_batch_state su.
Proof.
  apply (redo_after_undo top_context listening_but_disabled two_batch_state).
  - apply two_batch_state_reachable.
  - reflexivity.
Defined.

(** X13.  In a reachable state with something to redo, [undo] right
    after [redo] brings the cursor back to where it was and reverses
    exactly the batches that [redo] replayed. *)
Theorem undo_after_redo (ctx ctx' : Context) (st : State) :
  reachable st ->
  CURSOR st < js_len (MESSAGE_HISTORY st) - 1 ->
  exists sr su,
    redo ctx st = Some sr
    /\ undo ctx' sr = Some su
    /\ CURSOR su = CURSOR st
    /\ MESSAGE_HISTORY su = MESSAGE_HISTORY st
    /\ undo_collected sr su = redo_collected st sr.
Proof.
  intros Hr Hfut. destruct (reachable_boundary st Hr) as [Hwf Hb].
  pose proof Hwf as [Hc _ _ _]. unfold log_state in Hc.
  destruct Hb as [(e & He & Hm)|?]; [|lia].
  destruct (redo_walk ctx st Hc) as (sr & k & Hredo & Hk & Hcur & Hh & Hn).
  rewrite Z.min_l in Hk by lia.
  assert (H0 : 0 <= CURSOR st + 1) by lia.
  destruct (walk_forward_between _ _ _ _ H0 Hk)
    as (Hrange & Hbetween & _).
  assert (Hsr : log_state sr) by (unfold log_state; rewrite Hh, Hcur; lia).
  assert (Hwfsr : wf sr) by (by eapply wf_same_log).
  destruct (undo_marker ctx' sr Hwfsr)
    as (su & j & e' & Hu & Hj & Hcur' & Hh' & _).
  rewrite Hh, Hcur in Hj. unfold js_len in *.
  rewrite (walk_back_reach _ _ (Z.to_nat (CURSOR st))) in Hj.
  - injection Hj as <-. exists sr, su. split; [done|]. split; [done|].
    split; [lia|]. split; [by rewrite Hh', Hh|].
    unfold redo_collected, undo_collected. rewrite Hh, Hcur, Hcur'.
    rewrite (slice_from_marker _ _ _ e) by (done || lia).
    by rewrite Z2Nat.id by lia.
  - lia.
  - lia.
  - right. eauto.
  - intros i Hi. apply Hbetween. lia.
Qed.

Lemma undo_after_redo_witness :
  exists sr su,
    redo top_context undone_state = Some sr
    /\ undo top_context sr = Some su
    /\ CURSOR su = CURSOR undone_state
    /\ MESSAGE_HISTORY su = MESSAGE_HISTORY undone_state
    /\ undo_collected sr su = redo_collected undone_state sr.
Proof.
  apply (undo_after_redo top_context top_context undone_state).
  - eapply rtc_r; [apply two_batch_state_reachable|].
    apply (step_undo top_context). reflexivity.
  - vm_compute. reflexivity.
Defined.

(** X14.  However long the session, at most [HISTORY_SIZE] undos have an
    effect: from any reachable state, [HISTORY_SIZE] calls of [undo]
    all return and leave the cursor at index 0. *)
Theorem undo_history_size_times (ctx : Context) (st : State) :
  reachable st ->
  exists st',
    undo_times ctx (Z.to_nat HISTORY_SIZE) st = Some st' /\ CURSOR st' = 0.
Proof.
  intros Hr. destruct (reachable_invariant st Hr) as [Hwf Hcap].
  destruct (undo_times_depth ctx (Z.to_nat HISTORY_SIZE) st Hwf)
    as (st' & Hundo & Hwf' & Hdepth).
  exists st'. split; [done|]. apply depth_zero_cursor; [done|].
  assert (depth st <= Z.to_nat HISTORY_SIZE)%nat; [|lia].
  etrans; [|exact Hcap]. unfold depth. apply count_markers_take_mono.
  destruct Hwf as [Hc _ _ _]. unfold log_state, js_len in Hc. lia.
Qed.

Lemma undo_history_size_times_witness :
  exists st',
    undo_times top_context (Z.to_nat HISTORY_SIZE) over_capacity_state
    = Some st'
    /\ CURSOR st' = 0.
Proof.
  apply (undo_history_size_times top_context over_capacity_state).
  apply over_capacity_state_reachable.
Defined.

(** ** Undoing the transaction just recorded *)

Lemma appendMessages_outside ctx messages oldData st :
  clock (appendMessages ctx messages oldData st) = clock st
  /\ sent (appendMessages ctx messages oldData st) = sent st
  /\ announced (appendMessages ctx messages oldData st) = announced st.
Proof.
  unfold appendMessages, trimHistory.
  destruct (undoListening ctx && (js_len messages >? 0)); [|done].
  by destruct (js_len (List.filter is_marker _) >? HISTORY_SIZE).
Qed.

Lemma undo_eq ctx st j e first rest :
  log_state st ->
  walk_back (MESSAGE_HISTORY st) (Z.to_nat (Z.max (CURSOR st - 1) 0)) = Some j ->
  MESSAGE_HISTORY st !! j = Some e ->
  List.filter is_messages
    (js_slice (MESSAGE_HISTORY st) (Z.of_nat j) (CURSOR st + 1))
  = first :: rest ->
  undo ctx st
  = Some (applyUndoAction (inverses_latest_first (first :: rest))
            (entry_meta e) (entry_undoTag first) ctx
            (set_cursor (Z.of_nat j) st)).
Proof.
  intros Hc Hj He Hfilter. unfold undo.
  rewrite Hj, js_at_lookup, Nat2Z.id, He by lia.
  rewrite (Z.max_l (Z.of_nat j)) by lia. cbn zeta. rewrite Hfilter.
  change (js_len (first :: rest) >? 0) with true. cbn [head].
  do 2 f_equal. rewrite (foldl_concat batch_inverses). cbn [app].
  apply rev_flat_map.
Qed.

Lemma record_all_shape batches ctx st pre M recorded :
  wf st -> undoListening ctx = true ->
  MESSAGE_HISTORY st = pre ++ M :: recorded ->
  is_marker M = true ->
  Forall (fun e => is_marker e = false) recorded ->
  CURSOR st = js_len (MESSAGE_HISTORY st) - 1 ->
  exists st' pre' new,
    record_all batches ctx st = Some st'
    /\ wf st'
    /\ MESSAGE_HISTORY st' = pre' ++ M :: recorded ++ new
    /\ CURSOR st' = js_len (MESSAGE_HISTORY st') - 1
    /\ Forall (fun e => is_marker e = false
                        /\ entry_undoTag e = undoTag ctx) new
    /\ flat_map batch_inverses new
       = flat_map (fun b => omap (fun m => undoMessage m (snd b)) (fst b))
                  batches
    /\ (Exists (fun b => fst b <> []) batches -> new <> [])
    /\ clock st' = clock st /\ sent st' = sent st
    /\ announced st' = announced st.
Proof.
  unfold record_all. revert st pre recorded.
  induction batches as [|[ms od] bs IH];
    intros st pre recorded Hwf Hl Hh HM Hrec Hend; cbn [foldl].
  - exists st, pre, []. rewrite app_nil_r. repeat (split; [done|]).
    split; [by intros H%Exists_nil|done].
  - cbn [fst snd]. destruct ms as [|m ms].
    + rewrite appendMessages_nil.
      destruct (IH st pre recorded Hwf Hl Hh HM Hrec Hend)
        as (st' & pre' & new & Hrun & Hwf' & Hh' & Hend' & Hnew & Hinv
            & Hne & Hout).
      exists st', pre', new. repeat (split; [done|]).
      split; [|done]. intros [Hb|Hb]%Exists_cons; [done|by apply Hne].
    + destruct (appendMessages_recorded ctx (m :: ms) od st Hl
                  ltac:(done) Hwf)
        as (Hwf1 & Hend1 & [k Hk] & _ & _).
      destruct (appendMessages_outside ctx (m :: ms) od st)
        as (Hclk1 & Hsent1 & Hann1).
      set (st1 := appendMessages ctx (m :: ms) od st) in *.
      set (B := MessagesMessage (next_oid st) (m :: ms) od (undoTag ctx)) in *.
      assert (Htake : take (S (Z.to_nat (CURSOR st))) (MESSAGE_HISTORY st)
                      = MESSAGE_HISTORY st).
      { apply take_ge. unfold js_len in Hend. lia. }
      rewrite Htake, Hh in Hk.
      assert (Hkle : (k <= length pre)%nat).
      { destruct (decide (k <= length pre)%nat) as [|Hgt]; [done|exfalso].
        destruct Hwf1 as [_ (e & Hhd & Hm) _ _]. rewrite Hk in Hhd.
        rewrite drop_app_ge in Hhd by lia.
        destruct (k - length pre)%nat as [|k'] eqn:Hk'; [lia|].
        cbn [drop] in Hhd.
        assert (Forall (fun e => is_marker e = false)
                       (drop k' recorded ++ [B])) as Hall
          by (apply Forall_app; split;
              [by apply Forall_drop|by apply Forall_singleton]).
        destruct (drop k' recorded ++ [B]) as [|e' l]; [done|].
        injection Hhd as ->. apply Forall_cons in Hall as [Hall _].
        congruence. }
      rewrite drop_app_le in Hk by done.
      destruct (IH st1 (drop k pre) (recorded ++ [B]) Hwf1 Hl)
        as (st' & pre' & new & Hrun & Hwf' & Hh' & Hend' & Hnew & Hinv
            & _ & Hclk & Hsent & Hann).
      { rewrite Hk. by rewrite <- app_assoc. }
      { done. }
      { apply Forall_app. split; [done|by apply Forall_singleton]. }
      { done. }
      exists st', pre', (B :: new). split; [done|]. split; [done|].
      split; [rewrite Hh'; by rewrite <- app_assoc|]. split; [done|].
      split; [by apply Forall_cons|]. split; [cbn; by rewrite Hinv|].
      split; [done|]. by rewrite Hclk, Hsent, Hann.
Qed.

(** X15.  [undo] right after a transaction that recorded something
    reverses that transaction and nothing else: it submits the inverses
    of all operations the transaction reported, latest first, it
    announces the annotation given to [withUndo] and the tag of the
    context the transaction was opened from, and it leaves the cursor on
    the marker of the transaction. *)
Theorem undo_reverses_last_transaction
    (ctx ctx' : Context) (t : Transaction) (st : State) :
  wf st ->
  undoListening ctx = false ->
  undoDisabled ctx = false ->
  Exists (fun b => fst b <> []) (tx_batches t) ->
  exists st1 st2 tables,
    run_transaction ctx t st = Some st1
    /\ undo ctx' st1 = Some st2
    /\ sent st2
       = sent st ++ [stamp (transaction_inverses (tx_batches t)) (clock st)]
    /\ announced st2
       = announced st
         ++ [mkUndoState (transaction_inverses (tx_batches t)) tables
               (tx_meta t) (undoTag ctx)]
    /\ MESSAGE_HISTORY st2 !! Z.to_nat (CURSOR st2)
       = Some (MarkerMessage (next_oid st) (tx_meta t)).
Proof.
  intros Hwf Hl Hd Hsome. pose proof Hwf as [Hc _ _ _].
  destruct (withUndo_marker_spec (tx_meta t) st Hc) as (last & Hlast & Hopen).
  destruct (withUndo_marker_wf (tx_meta t) st Hwf)
    as (sm & Hopen' & Hwfm & Hendm & _).
  rewrite Hopen in Hopen'. injection Hopen' as Hsm.
  set (M := MarkerMessage (next_oid st) (tx_meta t)) in *.
  set (pre := take (if is_marker last then Z.to_nat (CURSOR st)
                    else S (Z.to_nat (CURSOR st))) (MESSAGE_HISTORY st)) in *.
  assert (Hhm : MESSAGE_HISTORY sm = pre ++ M :: []) by (by rewrite <- Hsm).
  assert (Houtm : clock sm = clock st /\ sent sm = sent st
                  /\ announced sm = announced st) by (by rewrite <- Hsm).
  destruct (record_all_shape (tx_batches t)
              (merge_context ctx
                 (mkOverrides (Some true) None (Some (undoTag ctx))))
              sm pre M [] Hwfm eq_refl Hhm eq_refl (Forall_nil_2 _) Hendm)
    as (st1 & pre' & new & Hrun & Hwf1 & Hh1 & Hend1 & Hnew & Hinv & Hne
        & Hclk & Hsent & Hann).
  cbn [app] in Hh1. specialize (Hne Hsome).
  destruct new as [|first rest]; [done|].
  assert (Hrun1 : run_transaction ctx t st = Some st1).
  { unfold run_transaction, withUndo. rewrite Hl, Hd, Hopen, Hsm.
    cbn [orb]. exact Hrun. }
  pose proof Hwf1 as [Hc1 _ _ _].
  assert (Hlen1 : length (MESSAGE_HISTORY st1)
                  = (length pre' + S (length (first :: rest)))%nat)
    by (rewrite Hh1, length_app; done).
  unfold js_len in Hend1.
  assert (HM : MESSAGE_HISTORY st1 !! length pre' = Some M).
  { rewrite Hh1, lookup_app_r, Nat.sub_diag by lia. done. }
  assert (Hj : walk_back (MESSAGE_HISTORY st1)
                 (Z.to_nat (Z.max (CURSOR st1 - 1) 0))
               = Some (length pre')).
  { cbn [length] in Hlen1. apply walk_back_reach; [lia|lia|right; eauto|].
    intros i Hi.
    destruct (lookup_lt_is_Some_2 (first :: rest) (i - S (length pre')))
      as [e He]; [cbn [length]; lia|].
    exists e. split.
    - rewrite Hh1, lookup_app_r by lia.
      replace (i - length pre')%nat with (S (i - S (length pre'))) by lia.
      done.
    - apply list_elem_of_lookup_2 in He.
      rewrite Forall_forall in Hnew. by apply Hnew. }
  assert (Hfilter : List.filter is_messages
                      (js_slice (MESSAGE_HISTORY st1)
                         (Z.of_nat (length pre')) (CURSOR st1 + 1))
                    = first :: rest).
  { rewrite js_slice_range by lia. rewrite Nat2Z.id.
    rewrite take_ge by (rewrite length_drop; lia).
    rewrite Hh1, drop_app_length. rewrite filter_messages_marker by done.
    clear -Hnew. induction Hnew as [|e l [He _] _ IH]; [done|].
    cbn [List.filter]. unfold is_messages at 1. rewrite He. cbn [negb].
    by rewrite IH. }
  pose proof (undo_eq ctx' st1 _ M first rest Hc1 Hj HM Hfilter) as Hundo.
  destruct (applyUndoAction_effect (inverses_latest_first (first :: rest))
              (entry_meta M) (entry_undoTag first) ctx'
              (set_cursor (Z.of_nat (length pre')) st1))
    as (Hh2 & Hcur2 & _ & Hsent2 & tables & Hann2).
  assert (Hops : inverses_latest_first (first :: rest)
                 = transaction_inverses (tx_batches t)).
  { unfold inverses_latest_first, transaction_inverses.
    by rewrite <- rev_flat_map, Hinv. }
  assert (Htag : entry_undoTag first = undoTag ctx).
  { apply Forall_cons in Hnew as [[_ Htag] _]. by rewrite Htag. }
  destruct Houtm as (Hclkm & Hsentm & Hannm).
  eexists st1, _, tables. split; [done|]. split; [exact Hundo|].
  rewrite Hsent2, Hann2, Hh2, Hcur2, Hops, Htag.
  cbn [set_cursor set_log sent announced clock CURSOR MESSAGE_HISTORY
       entry_meta M].
  rewrite Hsent, Hann, Hclk, Hsentm, Hannm, Hclkm, Nat2Z.id.
  split; [done|]. split; [done|]. exact HM.
Qed.

Lemma undo_reverses_last_transaction_witness :
  exists st1 st2 tables,
    run_transaction top_context two_batches over_capacity_state = Some st1
    /\ undo listening_but_disabled st1 = Some st2
    /\ sent st2
       = sent over_capacity_state
         ++ [stamp (transaction_inverses (tx_batches two_batches))
               (clock over_capacity_state)]
    /\ announced st2
       = announced over_capacity_state
         ++ [mkUndoState (transaction_inverses (tx_batches two_batches))
               tables (tx_meta two_batches) (undoTag top_context)]
    /\ MESSAGE_HISTORY st2 !! Z.to_nat (CURSOR st2)
       = Some (MarkerMessage (next_oid over_capacity_state)
                 (tx_meta two_batches)).
Proof.
  apply (undo_reverses_last_transaction top_context listening_but_disabled
           two_batches over_capacity_state).
  - apply reachable_invariant, over_capacity_state_reachable.
  - reflexivity.
  - reflexivity.
  - apply Exists_cons_hd. discriminate.
Defined.
